(** * HippoSync front end: validation, geolocation, auth and chat handlers

    A shallow embedding of the client-side logic of the HippoSync web
    client (src/frontend/src), together with the properties stated for it.

    Conventions of the embedding.

    - A JavaScript string is a sequence of UTF-16 code units.  The
      validation code is embedded over Rocq's [string], read as the
      sequence of code units below 256 (Latin-1); [\s], [toLowerCase] and
      the character classes are written out for that range.  Message
      texts that the chat view only stores and compares are kept as the
      bytes of the source literal.
    - [undefined]/[null] is [None]; a JavaScript object used as a
      key/value store ([localStorage], the axios default headers) is a
      [gmap string string].
    - An [async] handler is a program of the small effect monad [Prog]:
      reads and writes of the component environment, fire-and-forget
      outputs, and suspension points ([await], [confirm], [prompt]) whose
      answers are supplied by the outside world. *)

From Stdlib Require Import String Ascii List Bool Arith Lia.
From stdpp Require Import gmap strings.

Open Scope string_scope.

(** stdpp freezes [String.append] under [simpl]; the proofs below compute
    with it. *)
#[global] Arguments String.append !s1 s2 : simpl nomatch.

(* ===================================================================== *)
(** ** JavaScript runtime pieces used by the sources                      *)
(* ===================================================================== *)

Module JS.

(** Truthiness of a string value: only the empty string is falsy. *)
Definition truthy (s : string) : bool :=
  match s with
  | EmptyString => false
  | String _ _ => true
  end.

(** Truthiness of a possibly [undefined] string. *)
Definition truthy_opt (o : option string) : bool :=
  match o with
  | Some s => truthy s
  | None => false
  end.

(** [a || b] where [a] is a string or [undefined] and [b] a string. *)
Definition or_else (a : option string) (b : string) : string :=
  match a with
  | Some s => if truthy s then s else b
  | None => b
  end.

(** [a || b] on possibly [undefined] strings. *)
Definition or (a b : option string) : option string :=
  if truthy_opt a then a else b.

Definition code (c : ascii) : nat := nat_of_ascii c.

Definition in_range (lo hi : nat) (c : ascii) : bool :=
  Nat.leb lo (code c) && Nat.leb (code c) hi.

(** [\s] restricted to code units below 256: TAB, LF, VT, FF, CR, space
    and the no-break space. *)
Definition is_space (c : ascii) : bool :=
  in_range 9 13 c || Nat.eqb (code c) 32 || Nat.eqb (code c) 160.

(** Line terminators, the characters the regex dot does not match. *)
Definition is_line_terminator (c : ascii) : bool :=
  Nat.eqb (code c) 10 || Nat.eqb (code c) 13.

Definition is_upper (c : ascii) : bool := in_range 65 90 c.   (* [A-Z] *)
Definition is_lower (c : ascii) : bool := in_range 97 122 c.  (* [a-z] *)
Definition is_digit (c : ascii) : bool := in_range 48 57 c.   (* \d    *)

(** [String.prototype.toLowerCase] on one code unit below 256: the
    letters A-Z and the Latin-1 capitals U+00C0..U+00DE (the
    multiplication sign U+00D7 apart) move up by 32. *)
Definition lower_char (c : ascii) : ascii :=
  if in_range 65 90 c
     || (in_range 192 222 c && negb (Nat.eqb (code c) 215))
  then ascii_of_nat (code c + 32)
  else c.

Fixpoint toLowerCase (s : string) : string :=
  match s with
  | EmptyString => EmptyString
  | String c s' => String (lower_char c) (toLowerCase s')
  end.

(** [s.startsWith(p)] *)
Fixpoint startsWith (p s : string) : bool :=
  match p, s with
  | EmptyString, _ => true
  | String _ _, EmptyString => false
  | String a p', String b s' => Ascii.eqb a b && startsWith p' s'
  end.

(** [s.includes(sub)]: [sub] occurs at some position of [s]. *)
Fixpoint includes (s sub : string) : bool :=
  startsWith sub s ||
  match s with
  | EmptyString => false
  | String _ s' => includes s' sub
  end.

(** [s.split(sep)] for a one-character separator: the pieces between
    the occurrences of [sep], always at least one piece. *)
Fixpoint split (sep : ascii) (s : string) : list string :=
  match s with
  | EmptyString => [EmptyString]
  | String c s' =>
      if Ascii.eqb c sep then EmptyString :: split sep s'
      else match split sep s' with
           | piece :: rest => String c piece :: rest
           | [] => [String c EmptyString]
           end
  end.

(** Membership of a string in a [Set] of strings (or array [includes]). *)
Definition has (set : list string) (s : string) : bool :=
  existsb (String.eqb s) set.

(** [s1 + sep + s2 + ...]: [Array.prototype.join]. *)
Fixpoint join (sep : string) (l : list string) : string :=
  match l with
  | [] => EmptyString
  | [s] => s
  | s :: l' => s +:+ sep +:+ join sep l'
  end.

(** *** Regular expressions

    The fragment the sources use: character classes, concatenation and
    iteration, matched with Brzozowski derivatives. *)

Inductive regex : Type :=
| Void : regex
| Eps : regex
| Cls (p : ascii -> bool) : regex
| Cat (r1 r2 : regex) : regex
| Alt (r1 r2 : regex) : regex
| Star (r : regex) : regex.

(** [r+] *)
Definition Plus (r : regex) : regex := Cat r (Star r).

(** A literal character. *)
Definition Chr (c : ascii) : regex := Cls (Ascii.eqb c).

(** A class that lists its members, [[...]]. *)
Definition OneOf (members : string) : regex :=
  Cls (fun c => existsb (Ascii.eqb c) (list_ascii_of_string members)).

Fixpoint nullable (r : regex) : bool :=
  match r with
  | Void => false
  | Eps => true
  | Cls _ => false
  | Cat r1 r2 => nullable r1 && nullable r2
  | Alt r1 r2 => nullable r1 || nullable r2
  | Star _ => true
  end.

Fixpoint deriv (c : ascii) (r : regex) : regex :=
  match r with
  | Void => Void
  | Eps => Void
  | Cls p => if p c then Eps else Void
  | Cat r1 r2 =>
      if nullable r1
      then Alt (Cat (deriv c r1) r2) (deriv c r2)
      else Cat (deriv c r1) r2
  | Alt r1 r2 => Alt (deriv c r1) (deriv c r2)
  | Star r1 => Cat (deriv c r1) (Star r1)
  end.

(** [/^r$/.test(s)]: the whole of [s] matches [r]. *)
Fixpoint matches (r : regex) (s : string) : bool :=
  match s with
  | EmptyString => nullable r
  | String c s' => matches (deriv c r) s'
  end.

(** [/r/.test(s)]: some substring of [s] matches [r]. *)
Definition test (r : regex) (s : string) : bool :=
  let any := Star (Cls (fun _ => true)) in
  matches (Cat any (Cat r any)) s.

(** The language of a regular expression, as a relation. *)
Inductive lang : regex -> string -> Prop :=
| lang_eps : lang Eps EmptyString
| lang_cls p c : p c = true -> lang (Cls p) (String c EmptyString)
| lang_cat r1 r2 s1 s2 :
    lang r1 s1 -> lang r2 s2 -> lang (Cat r1 r2) (s1 +:+ s2)
| lang_alt_l r1 r2 s : lang r1 s -> lang (Alt r1 r2) s
| lang_alt_r r1 r2 s : lang r2 s -> lang (Alt r1 r2) s
| lang_star_nil r : lang (Star r) EmptyString
| lang_star_app r s1 s2 :
    lang r s1 -> lang (Star r) s2 -> lang (Star r) (s1 +:+ s2).

(** [/(.)\1{2,}/.test(s)]: some character other than a line terminator
    occurs three times in a row.  (A back-reference is not regular; the
    test is written out.) *)
Fixpoint has_triple (s : string) : bool :=
  match s with
  | String a ((String b (String c _)) as s') =>
      (negb (is_line_terminator a) && Ascii.eqb a b && Ascii.eqb b c)
      || has_triple s'
  | _ => false
  end.

(** Every character of [s] satisfies [p]. *)
Fixpoint all_chars (p : ascii -> bool) (s : string) : bool :=
  match s with
  | EmptyString => true
  | String c s' => p c && all_chars p s'
  end.


(** The number of characters of [s] that satisfy [p]. *)
Fixpoint count_chars (p : ascii -> bool) (s : string) : nat :=
  match s with
  | EmptyString => 0
  | String c s' => (if p c then 1 else 0) + count_chars p s'
  end.

End JS.

(* ===================================================================== *)
(** ** components/Signup.jsx: validation utilities                        *)
(* ===================================================================== *)

Module Signup.

Definition DISPOSABLE_DOMAINS : list string :=
  [ "tempmail.com"; "throwaway.email"; "guerrillamail.com"; "mailinator.com";
    "10minutemail.com"; "trashmail.com"; "fakeinbox.com"; "temp-mail.org";
    "yopmail.com"; "maildrop.cc"; "getnada.com"; "sharklasers.com" ].

Definition COMMON_PASSWORDS : list string :=
  [ "password"; "123456"; "12345678"; "qwerty"; "abc123"; "letmein";
    "password1"; "123456789"; "12345"; "password123"; "admin"; "welcome" ].

(** The result of [validateEmail]. *)
Record EmailResult : Type := mkEmailResult {
  isValid : bool;
  errors : list string
}.

(** [[^\s@]] *)
Definition notSpaceAt (c : ascii) : bool :=
  negb (JS.is_space c || Ascii.eqb c "@").

(** [/^[^\s@]+@[^\s@]+\.[^\s@]+$/] *)
Definition emailRegex : JS.regex :=
  JS.Cat (JS.Plus (JS.Cls notSpaceAt))
    (JS.Cat (JS.Chr "@")
       (JS.Cat (JS.Plus (JS.Cls notSpaceAt))
          (JS.Cat (JS.Chr ".") (JS.Plus (JS.Cls notSpaceAt))))).

Definition msg_email_required : string := "Email is required".
Definition msg_email_format : string := "Invalid email format".
Definition msg_email_domain : string := "Invalid email domain".
Definition msg_email_disposable : string :=
  "Disposable email addresses are not allowed. Please use a legitimate email.".
Definition msg_email_test : string :=
  "Test or temporary email domains are not allowed".
Definition msg_email_nodot : string := "Email domain is invalid".

(** [cond ? errors.push(msg) : nothing] *)
Definition push_if (cond : bool) (msg : string) (errs : list string)
  : list string :=
  if cond then errs ++ [msg] else errs.

(** [email.split('@')[1]?.toLowerCase()] *)
Definition domain_of (email : string) : option string :=
  match nth_error (JS.split "@" email) 1 with
  | Some d => Some (JS.toLowerCase d)
  | None => None
  end.

Definition validateEmail (email : string) : EmailResult :=
  if negb (JS.truthy email) then
    mkEmailResult false [msg_email_required]
  else if negb (JS.matches emailRegex email) then
    mkEmailResult false [msg_email_format]
  else
    match domain_of email with
    | None => mkEmailResult false [msg_email_domain]
    | Some domain =>
        if negb (JS.truthy domain) then
          mkEmailResult false [msg_email_domain]
        else
          let errors0 : list string := [] in
          let errors1 :=
            push_if (JS.has DISPOSABLE_DOMAINS domain)
                    msg_email_disposable errors0 in
          let errors2 :=
            push_if (JS.includes domain "test"
                     || JS.includes domain "example"
                     || JS.includes domain "temp")
                    msg_email_test errors1 in
          let errors3 :=
            push_if (negb (JS.includes domain ".")) msg_email_nodot errors2 in
          mkEmailResult (Nat.eqb (length errors3) 0) errors3
    end.

(** One entry of the per-check structure of [validatePassword]. *)
Record Check : Type := mkCheck {
  passed : bool;
  label : string;
  error : string
}.

(** The [checks] object; the fields are in the order of the source, which
    is the order [Object.values] lists them in. *)
Record Checks : Type := mkChecks {
  chk_length : Check;
  chk_uppercase : Check;
  chk_lowercase : Check;
  chk_number : Check;
  chk_special : Check;
  chk_common : Check;
  chk_sequential : Check;
  chk_repeated : Check
}.

Definition values (c : Checks) : list Check :=
  [ chk_length c; chk_uppercase c; chk_lowercase c; chk_number c;
    chk_special c; chk_common c; chk_sequential c; chk_repeated c ].

(** The result of [validatePassword]. *)
Record PasswordResult : Type := mkPasswordResult {
  pw_isValid : bool;
  pw_checks : Checks;
  pw_errors : list string
}.

Definition initial_checks : Checks :=
  {| chk_length := mkCheck false "At least 8 characters" "";
     chk_uppercase := mkCheck false "One uppercase letter" "";
     chk_lowercase := mkCheck false "One lowercase letter" "";
     chk_number := mkCheck false "One number" "";
     chk_special := mkCheck false "One special character (!@#$...)" "";
     chk_common := mkCheck true "Not a common password" "";
     chk_sequential := mkCheck true "No sequential characters" "";
     chk_repeated := mkCheck true "No repeated characters" "" |}.

(** [check.passed = p; if (!check.passed) check.error = msg] *)
Definition decide_check (c : Check) (p : bool) (msg : string) : Check :=
  {| passed := p; label := label c; error := if p then error c else msg |}.

(** The members of the character class of the special-character test:
    ! @ # $ % ^ & * ( ) , . ? the double quote (code unit 34)
    : { } | < > _ - + = [ ] \ / ; ` ~ *)
Definition special_chars : string :=
  "!@#$%^&*(),.?" +:+ String (ascii_of_nat 34) ":{}|<>_-+=[]\/;`~".

Definition sequences : list string :=
  [ "123"; "234"; "345"; "456"; "567"; "678"; "789"; "abc"; "bcd"; "cde" ].

Definition err_length : string := "Password must be at least 8 characters".
Definition err_uppercase : string := "Add at least one uppercase letter (A-Z)".
Definition err_lowercase : string := "Add at least one lowercase letter (a-z)".
Definition err_number : string := "Add at least one number (0-9)".
Definition err_special : string := "Add at least one special character".
Definition err_common : string := "This password is too common".
Definition err_sequential : string :=
  "Avoid sequential characters like 123 or abc".
Definition err_repeated : string :=
  "Avoid repeating the same character 3+ times".

(** The [checks] object after the eight assignments. *)
Definition run_checks (password : string) : Checks :=
  let c := initial_checks in
  {| chk_length :=
       decide_check (chk_length c)
         (Nat.leb 8 (String.length password)) err_length;
     chk_uppercase :=
       decide_check (chk_uppercase c)
         (JS.test (JS.Cls JS.is_upper) password) err_uppercase;
     chk_lowercase :=
       decide_check (chk_lowercase c)
         (JS.test (JS.Cls JS.is_lower) password) err_lowercase;
     chk_number :=
       decide_check (chk_number c)
         (JS.test (JS.Cls JS.is_digit) password) err_number;
     chk_special :=
       decide_check (chk_special c)
         (JS.test (JS.OneOf special_chars) password) err_special;
     chk_common :=
       decide_check (chk_common c)
         (negb (JS.has COMMON_PASSWORDS (JS.toLowerCase password)))
         err_common;
     chk_sequential :=
       decide_check (chk_sequential c)
         (negb (existsb
                  (fun seq => JS.includes (JS.toLowerCase password) seq)
                  sequences))
         err_sequential;
     chk_repeated :=
       decide_check (chk_repeated c)
         (negb (JS.has_triple password)) err_repeated |}.

(** [Object.values(checks).filter(c => !c.passed && c.error).map(c => c.error)] *)
Definition collect_errors (c : Checks) : list string :=
  map error
      (filter (fun check => negb (passed check) && JS.truthy (error check))
              (values c)).

Definition validatePassword (password : string) : PasswordResult :=
  if negb (JS.truthy password) then
    mkPasswordResult false initial_checks ["Password is required"]
  else
    let checks := run_checks password in
    let errors := collect_errors checks in
    mkPasswordResult (Nat.eqb (length errors) 0) checks errors.

(** Every check of the per-check structure is passed. *)
Definition all_passed (c : Checks) : bool :=
  forallb passed (values c).

(** The part of [emailRegex] after the at sign. *)
Definition domainRegex : JS.regex :=
  JS.Cat (JS.Plus (JS.Cls notSpaceAt))
    (JS.Cat (JS.Chr ".") (JS.Plus (JS.Cls notSpaceAt))).

(** The names of the checks of a per-check structure that did not pass,
    in the order of the structure. *)
Definition failed (c : Checks) : list string :=
  flat_map (fun nc => if passed (snd nc) then [] else [fst nc])
    [ ("length", chk_length c); ("uppercase", chk_uppercase c);
      ("lowercase", chk_lowercase c); ("number", chk_number c);
      ("special", chk_special c); ("common", chk_common c);
      ("sequential", chk_sequential c); ("repeated", chk_repeated c) ].

End Signup.

(* ===================================================================== *)
(** ** Handlers as effectful programs                                     *)
(* ===================================================================== *)

Module Eff.

(** Records exchanged with the backend. *)

(** A thread as the client holds it.  [id] is kept as the text that
    [String(t.id)] and the template literals produce. *)
Record Thread : Type := mkThread {
  id : string;
  title : string;
  project_id : option string;
  active_model : option string
}.

(** [address] of a reverse-geocoding response; absent fields are [None]. *)
Record Address : Type := mkAddress {
  addr_city : option string;
  addr_town : option string;
  addr_village : option string;
  addr_state : option string;
  addr_country : option string
}.

(** The parsed body of a successful response. *)
Inductive Data : Type :=
| DNone
| DVerify (status : string) (message email : option string)
| DThread (t : Thread)
| DReply (reply : option string)
| DGeo (address : option Address).

Inductive Method : Type := GET | POST | PUT | DELETE.

(** Request bodies: none, a JSON object or a multipart form, the last two
    as the list of their fields in insertion order. *)
Inductive Body : Type :=
| BNone
| BJson (fields : list (string * string))
| BForm (fields : list (string * string)).

(** What a handler can wait for. *)
Inductive Query : Type :=
| Http (m : Method) (url : string) (body : Body)
| Confirm (msg : string)
| Prompt (msg default : string)
| CurrentPosition.

(** What the outside world answers. *)
Inductive Answer : Type :=
| HttpOk (d : Data)
| HttpError (detail : option string)
| Chosen (b : bool)
| Typed (text : option string)
| Position (latitude longitude : string)
| PositionError.

(** Outputs nobody waits for. *)
Inductive Output : Type :=
| PreventDefault
| Alert (msg : string)
| ConsoleError (label : string)   (* the logged error object is not kept *)
| NavigateAfter (ms : nat) (path : string) (email : string)
| StartCountdown (period_ms : nat)
| DispatchEvent (name : string).

(** What a rejected promise or a [throw] carries: an axios error with
    its [response.data.detail], or a runtime error. *)
Inductive Err : Type :=
| EHttp (detail : option string)
| ERuntime.

Section Prog.

Variable Env : Type.

Inductive Prog (A : Type) : Type :=
| Ret (a : A)
| Throw (e : Err)
| Get (k : Env -> Prog A)
| Put (f : Env -> Env) (k : Prog A)
| Emit (o : Output) (k : Prog A)
| Await (q : Query) (k : Answer -> Prog A).

Arguments Ret {A} a.
Arguments Throw {A} e.
Arguments Get {A} k.
Arguments Put {A} f k.
Arguments Emit {A} o k.
Arguments Await {A} q k.

Fixpoint bind {A B : Type} (p : Prog A) (f : A -> Prog B) : Prog B :=
  match p with
  | Ret a => f a
  | Throw e => Throw e
  | Get k => Get (fun env => bind (k env) f)
  | Put g k => Put g (bind k f)
  | Emit o k => Emit o (bind k f)
  | Await q k => Await q (fun a => bind (k a) f)
  end.

(** [try { p } catch (e) { h e }] *)
Fixpoint try_catch {A : Type} (p : Prog A) (h : Err -> Prog A) : Prog A :=
  match p with
  | Ret a => Ret a
  | Throw e => h e
  | Get k => Get (fun env => try_catch (k env) h)
  | Put g k => Put g (try_catch k h)
  | Emit o k => Emit o (try_catch k h)
  | Await q k => Await q (fun a => try_catch (k a) h)
  end.

(** [try { p } finally { fin }] *)
Definition finally {A : Type} (p : Prog A) (fin : Prog unit) : Prog A :=
  bind (try_catch (bind p (fun a => Ret (inl a)))
                  (fun e => Ret (inr e)))
       (fun r => bind fin (fun _ =>
          match r with
          | inl a => Ret a
          | inr e => Throw e
          end)).

(** [await api.get/post/put/delete(...)]: the body of a successful
    response; a failed call throws. *)
Definition http (m : Method) (url : string) (body : Body) : Prog Data :=
  Await (Http m url body)
        (fun a => match a with
                  | HttpOk d => Ret d
                  | HttpError detail => Throw (EHttp detail)
                  | _ => Throw ERuntime
                  end).

(** One entry of a trace: what was emitted, asked or answered; a
    trace pairs each entry with the environment at that moment. *)
Inductive Event : Type :=
| Emitted (o : Output)
| Asked (q : Query)
| Answered (a : Answer).

Inductive Result (A : Type) : Type :=
| Returned (a : A)
| Raised (e : Err)
| Pending.

Arguments Returned {A} a.
Arguments Raised {A} e.
Arguments Pending {A}.

Record Outcome (A : Type) : Type := mkOutcome {
  out_env : Env;
  out_trace : list (Event * Env);
  out_result : Result A
}.

Arguments mkOutcome {A} _ _ _.
Arguments out_env {A} _.
Arguments out_trace {A} _.
Arguments out_result {A} _.

Definition logged {A : Type} (ev : Event) (env : Env) (o : Outcome A)
  : Outcome A :=
  mkOutcome (out_env o) ((ev, env) :: out_trace o) (out_result o).

(** Run a program from [env]; the answers to its questions are taken
    from [answers] in order.  A question with no answer left stays
    pending. *)
Fixpoint run {A : Type} (p : Prog A) (answers : list Answer) (env : Env)
  : Outcome A :=
  match p with
  | Ret a => mkOutcome env [] (Returned a)
  | Throw e => mkOutcome env [] (Raised e)
  | Get k => run (k env) answers env
  | Put f k => run k answers (f env)
  | Emit o k => logged (Emitted o) env (run k answers env)
  | Await q k =>
      match answers with
      | [] => mkOutcome env [(Asked q, env)] Pending
      | a :: rest =>
          logged (Asked q) env (logged (Answered a) env (run (k a) rest env))
      end
  end.

(** The HTTP requests of a trace, in order. *)
Definition requests (tr : list (Event * Env)) : list (Method * string * Body) :=
  flat_map (fun e => match fst e with
                     | Asked (Http m url body) => [(m, url, body)]
                     | _ => []
                     end) tr.

End Prog.

Arguments Ret {Env A} a.
Arguments Throw {Env A} e.
Arguments Get {Env A} k.
Arguments Put {Env A} f k.
Arguments Emit {Env A} o k.
Arguments Await {Env A} q k.
Arguments bind {Env A B} p f.
Arguments try_catch {Env A} p h.
Arguments finally {Env A} p fin.
Arguments http {Env} m url body.
Arguments Returned {A} a.
Arguments Raised {A} e.
Arguments Pending {A}.
Arguments mkOutcome {Env A} _ _ _.
Arguments out_env {Env A} _.
Arguments out_trace {Env A} _.
Arguments out_result {Env A} _.
Arguments run {Env A} p answers env.
Arguments requests {Env} tr.

(** [Prog Env] with stdpp's monad notations: [x ← p; q] and [p;; q]. *)
#[global] Instance prog_ret {Env : Type} : MRet (Prog Env) :=
  fun A a => Ret a.
#[global] Instance prog_bind {Env : Type} : MBind (Prog Env) :=
  fun A B f p => bind p f.

(** [setX(...)], [localStorage.setItem(...)]: a write followed by nothing. *)
Definition modify {Env : Type} (f : Env -> Env) : Prog Env unit :=
  Put f (Ret tt).

Definition emit {Env : Type} (o : Output) : Prog Env unit :=
  Emit o (Ret tt).

Definition when {Env : Type} (c : bool) (p : Prog Env unit) : Prog Env unit :=
  if c then p else Ret tt.

End Eff.

(* ===================================================================== *)
(** ** api.js: the bearer token                                           *)
(* ===================================================================== *)

Module Api.

(** The two stores [setAuth] writes: [api.defaults.headers.common] and
    [localStorage]. *)
Record ApiState : Type := mkApiState {
  headers : gmap string string;
  localStorage : gmap string string
}.

Definition setAuth (token : option string) (st : ApiState) : ApiState :=
  match token with
  | Some t =>
      if JS.truthy t then
        {| headers := <["Authorization" := "Bearer " +:+ t]> (headers st);
           localStorage := <["token" := t]> (localStorage st) |}
      else
        {| headers := delete "Authorization" (headers st);
           localStorage := delete "token" (localStorage st) |}
  | None =>
      {| headers := delete "Authorization" (headers st);
         localStorage := delete "token" (localStorage st) |}
  end.

Definition getToken (st : ApiState) : option string :=
  localStorage st !! "token".

(** The module body: attach the stored token, if any, on page load. *)
Definition on_load (st : ApiState) : ApiState :=
  match getToken st with
  | Some existingToken =>
      if JS.truthy existingToken then
        {| headers :=
             <["Authorization" := "Bearer " +:+ existingToken]> (headers st);
           localStorage := localStorage st |}
      else st
  | None => st
  end.

End Api.

(* ===================================================================== *)
(** ** components/Signup.jsx: the component                               *)
(* ===================================================================== *)

Module SignupForm.

Import Eff.

Record LocationInfo : Type := mkLocationInfo {
  city : string;
  state : string;
  country : string;
  latitude : string;
  longitude : string;
  timezone : string;
  formatted : string
}.

(** The component state [submit] and [requestLocation] read and write,
    with the browser stores and capabilities they use. *)
Record Env : Type := mkEnv {
  email : string;
  password : string;
  name : string;
  occupation : string;
  location : option LocationInfo;
  locationError : string;
  error : option string;
  success : bool;
  loading : bool;
  emailValidation : option Signup.EmailResult;
  passwordValidation : option Signup.PasswordResult;
  touched : bool * bool;
  localStorage : gmap string string;
  sessionStorage : gmap string string;
  geolocation : bool;
  resolvedTimeZone : string
}.



Definition setError (v : option string) (s : Env) : Env :=
  mkEnv (email s) (password s) (name s) (occupation s) (location s)
        (locationError s) v (success s) (loading s) (emailValidation s)
        (passwordValidation s) (touched s) (localStorage s)
        (sessionStorage s) (geolocation s) (resolvedTimeZone s).

Definition setSuccess (v : bool) (s : Env) : Env :=
  mkEnv (email s) (password s) (name s) (occupation s) (location s)
        (locationError s) (error s) v (loading s) (emailValidation s)
        (passwordValidation s) (touched s) (localStorage s)
        (sessionStorage s) (geolocation s) (resolvedTimeZone s).

Definition setLoading (v : bool) (s : Env) : Env :=
  mkEnv (email s) (password s) (name s) (occupation s) (location s)
        (locationError s) (error s) (success s) v (emailValidation s)
        (passwordValidation s) (touched s) (localStorage s)
        (sessionStorage s) (geolocation s) (resolvedTimeZone s).

Definition setEmailValidation (v : Signup.EmailResult) (s : Env) : Env :=
  mkEnv (email s) (password s) (name s) (occupation s) (location s)
        (locationError s) (error s) (success s) (loading s) (Some v)
        (passwordValidation s) (touched s) (localStorage s)
        (sessionStorage s) (geolocation s) (resolvedTimeZone s).

Definition setPasswordValidation (v : Signup.PasswordResult) (s : Env) : Env :=
  mkEnv (email s) (password s) (name s) (occupation s) (location s)
        (locationError s) (error s) (success s) (loading s)
        (emailValidation s) (Some v) (touched s) (localStorage s)
        (sessionStorage s) (geolocation s) (resolvedTimeZone s).

Definition setTouched (v : bool * bool) (s : Env) : Env :=
  mkEnv (email s) (password s) (name s) (occupation s) (location s)
        (locationError s) (error s) (success s) (loading s)
        (emailValidation s) (passwordValidation s) v (localStorage s)
        (sessionStorage s) (geolocation s) (resolvedTimeZone s).

(** [localStorage.removeItem(key)] *)
Definition localStorage_removeItem (key : string) (s : Env) : Env :=
  mkEnv (email s) (password s) (name s) (occupation s) (location s)
        (locationError s) (error s) (success s) (loading s)
        (emailValidation s) (passwordValidation s) (touched s)
        (delete key (localStorage s)) (sessionStorage s) (geolocation s)
        (resolvedTimeZone s).

(** [sessionStorage.removeItem(key)] *)
Definition sessionStorage_removeItem (key : string) (s : Env) : Env :=
  mkEnv (email s) (password s) (name s) (occupation s) (location s)
        (locationError s) (error s) (success s) (loading s)
        (emailValidation s) (passwordValidation s) (touched s)
        (localStorage s) (delete key (sessionStorage s)) (geolocation s)
        (resolvedTimeZone s).

(** The location record built from a reverse-geocoding response
    [data], the coordinates (as [String(...)] renders them) and the
    browser's time zone. *)
Definition buildLocation (data : option Address) (lat lon tz : string)
  : LocationInfo :=
  let addr := match data with
              | Some a => a
              | None => mkAddress None None None None None
              end in
  let city :=
    JS.or_else
      (JS.or (JS.or (addr_city addr) (addr_town addr)) (addr_village addr))
      "Unknown" in
  let state := JS.or_else (addr_state addr) "" in
  let country := JS.or_else (addr_country addr) "" in
  {| city := city; state := state; country := country;
     latitude := lat; longitude := lon; timezone := tz;
     formatted :=
       city +:+ (if JS.truthy state then ", " +:+ state else "")
            +:+ (if JS.truthy country then ", " +:+ country else "") |}.



(** The optional fields of the signup payload. *)
Definition optional_field (key value : string) : list (string * string) :=
  if JS.truthy value then [(key, value)] else [].

Definition location_fields (l : option LocationInfo)
  : list (string * string) :=
  match l with
  | Some loc =>
      [ ("location_city", city loc);
        ("location_state", state loc);
        ("location_country", country loc);
        ("location_latitude", latitude loc);
        ("location_longitude", longitude loc);
        ("location_timezone", timezone loc);
        ("location_formatted", formatted loc) ]
  | None => []
  end.

Definition payload (s : Env) : list (string * string) :=
  [ ("email", email s); ("password", password s) ]
  ++ optional_field "name" (name s)
  ++ optional_field "occupation" (occupation s)
  ++ location_fields (location s).

Definition msg_fix_errors : string :=
  "Please fix the validation errors before submitting".

(** [e.response?.data?.detail || fallback] *)
Definition detail_or (e : Err) (fallback : string) : string :=
  match e with
  | EHttp detail => JS.or_else detail fallback
  | ERuntime => fallback
  end.

Definition submit : Prog Env unit :=
  Get (fun s =>
    emit PreventDefault;;
    modify (setError None);;
    modify (setTouched (true, true));;
    let emailVal := Signup.validateEmail (email s) in
    let passwordVal := Signup.validatePassword (password s) in
    modify (setEmailValidation emailVal);;
    modify (setPasswordValidation passwordVal);;
    if negb (Signup.isValid emailVal) || negb (Signup.pw_isValid passwordVal)
    then modify (setError (Some msg_fix_errors))
    else
      modify (setLoading true);;
      finally
        (try_catch
           (http POST "/auth/signup" (BJson (payload s));;
            modify (setSuccess true);;
            modify (localStorage_removeItem "token");;
            modify (sessionStorage_removeItem "token");;
            emit (NavigateAfter 1500 "/verify-email" (email s)))
           (fun e =>
              let errorMsg := detail_or e "Signup failed. Please try again." in
              modify (setError (Some errorMsg))))
        (modify (setLoading false))).

(** The first candidate that is a non-empty string, or the fallback. *)
Fixpoint first_nonempty (candidates : list (option string))
         (fallback : string) : string :=
  match candidates with
  | [] => fallback
  | Some (String c s) :: _ => String c s
  | _ :: rest => first_nonempty rest fallback
  end.

(** The strings of a list that are not empty. *)
Definition nonempty_parts (parts : list string) : list string :=
  filter JS.truthy parts.

(** The address of a response, with every field absent when the
    response has none. *)
Definition address_of (data : option Address) : Address :=
  match data with
  | Some a => a
  | None => mkAddress None None None None None
  end.

(** A form with a disposable address and one with valid credentials. *)
Definition form (email password : string) : Env :=
  mkEnv email password "" "" None "" None false false None None
        (false, false) ∅ ∅ true "Europe/Paris".

End SignupForm.

(* ===================================================================== *)
(** ** The event loop: several handlers in flight                         *)
(* ===================================================================== *)

Module Loop.

Import Eff.

Section Scheduler.

Variable Env : Type.

(** The component environment, the continuations parked at a
    suspension point, and everything emitted or asked so far. *)
Record System : Type := mkSystem {
  sys_env : Env;
  sys_waiting : list (Answer -> Prog Env unit);
  sys_trace : list (Event * Env)
}.

(** Run [p] up to its first suspension point (run-to-completion of the
    current task); an exception nobody catches ends the task. *)
Fixpoint start (p : Prog Env unit) (s : System) : System :=
  match p with
  | Ret _ => s
  | Throw _ => s
  | Get k => start (k (sys_env s)) s
  | Put f k => start k (mkSystem (f (sys_env s)) (sys_waiting s) (sys_trace s))
  | Emit o k =>
      start k (mkSystem (sys_env s) (sys_waiting s)
                        (sys_trace s ++ [(Emitted o, sys_env s)]))
  | Await q k =>
      mkSystem (sys_env s) (sys_waiting s ++ [k])
               (sys_trace s ++ [(Asked q, sys_env s)])
  end.

(** The [i]-th parked continuation receives its answer. *)
Definition resolve (i : nat) (a : Answer) (s : System) : System :=
  match sys_waiting s !! i with
  | Some k =>
      start (k a)
            (mkSystem (sys_env s) (delete i (sys_waiting s))
                      (sys_trace s ++ [(Answered a, sys_env s)]))
  | None => s
  end.

End Scheduler.

Arguments mkSystem {Env} _ _ _.
Arguments sys_env {Env} _.
Arguments sys_waiting {Env} _.
Arguments sys_trace {Env} _.
Arguments start {Env} p s.
Arguments resolve {Env} i a s.

End Loop.

(* ===================================================================== *)
(** ** components/EmailVerifiedPage.jsx                                   *)
(* ===================================================================== *)

Module EmailVerifiedPage.

Import Eff Loop.

(** The ref and the state variables of the component. *)
Record Env : Type := mkEnv {
  verificationAttempted : bool;
  status : string;
  message : option string;
  email : option string;
  countdown : nat
}.

Definition initial : Env := mkEnv false "verifying" (Some "") (Some "") 3.

Definition setAttempted (v : bool) (s : Env) : Env :=
  mkEnv v (status s) (message s) (email s) (countdown s).
Definition setStatus (v : string) (s : Env) : Env :=
  mkEnv (verificationAttempted s) v (message s) (email s) (countdown s).
Definition setMessage (v : option string) (s : Env) : Env :=
  mkEnv (verificationAttempted s) (status s) v (email s) (countdown s).
Definition setEmail (v : option string) (s : Env) : Env :=
  mkEnv (verificationAttempted s) (status s) (message s) v (countdown s).

Definition msg_missing_token : string :=
  "Invalid verification link. Token is missing.".
Definition msg_unexpected : string := "Unexpected response from server.".
Definition msg_failed : string :=
  "Verification failed. The link may be invalid or expired.".

Definition verify_url (token : string) : string :=
  "/auth/verify-email?token=" +:+ token.

(** [verifyEmail], the body of the effect, for the [token] of the
    render that scheduled it.  (The 300 ms minimum display time and the
    ticks of the countdown are not modelled; starting the countdown is
    an output.) *)
Definition verifyEmail (token : option string) : Prog Env unit :=
  Get (fun s =>
    if verificationAttempted s then Ret tt
    else
      modify (setAttempted true);;
      match token with
      | Some tok =>
          if JS.truthy tok then
            try_catch
              (data ← http GET (verify_url tok) BNone;
               match data with
               | DVerify st msg em =>
                   if String.eqb st "success" then
                     modify (setStatus "success");;
                     modify (setMessage msg);;
                     modify (setEmail em);;
                     emit (StartCountdown 1000)
                   else if String.eqb st "already_verified" then
                     modify (setStatus "already_verified");;
                     modify (setMessage msg)
                   else
                     modify (setStatus "error");;
                     modify (setMessage (Some msg_unexpected))
               | _ =>
                   modify (setStatus "error");;
                   modify (setMessage (Some msg_unexpected))
               end)
              (fun error =>
                 emit (ConsoleError "Verification failed:");;
                 modify (setStatus "error");;
                 match error with
                 | EHttp (Some detail) =>
                     if JS.truthy detail
                     then modify (setMessage (Some detail))
                     else modify (setMessage (Some msg_failed))
                 | _ => modify (setMessage (Some msg_failed))
                 end)
          else
            modify (setStatus "error");;
            modify (setMessage (Some msg_missing_token))
      | None =>
          modify (setStatus "error");;
          modify (setMessage (Some msg_missing_token))
      end).

(** The mounted page: the running system, and React's record of the
    dependency list [[token]] of the last effect run ([None] before the
    first render). *)
Record Page : Type := mkPage {
  sys : System Env;
  deps : option (option string)
}.

Definition mount : Page := mkPage (mkSystem initial [] []) None.

(** What can happen to a mounted page: a render with the token of the
    current query string, a forced re-run of the effect with the token
    of the last render (development double-invocation), and the arrival
    of the answer to a pending call. *)
Inductive PageEvent : Type :=
| Render (token : option string)
| RerunEffect
| Resolve (i : nat) (a : Answer).

Definition step (p : Page) (e : PageEvent) : Page :=
  match e with
  | Render token =>
      if bool_decide (deps p = Some token) then p
      else mkPage (start (verifyEmail token) (sys p)) (Some token)
  | RerunEffect =>
      match deps p with
      | Some token => mkPage (start (verifyEmail token) (sys p)) (deps p)
      | None => p
      end
  | Resolve i a => mkPage (resolve i a (sys p)) (deps p)
  end.

Definition steps (p : Page) (es : list PageEvent) : Page :=
  fold_left step es p.

(** The verification calls issued so far. *)
Definition calls (p : Page) : list (Method * string * Body) :=
  requests (sys_trace (sys p)).

(** A program that asks nothing and never resets the guard flag. *)
Inductive settled : Prog Env unit -> Prop :=
| settled_ret a : settled (Ret a)
| settled_throw e : settled (Throw e)
| settled_get k : (forall s, settled (k s)) -> settled (Get k)
| settled_put f k :
    (forall s, verificationAttempted s = true ->
               verificationAttempted (f s) = true) ->
    settled k -> settled (Put f k)
| settled_emit o k : settled k -> settled (Emit o k).

(** The guard is up and whatever is still waiting will ask nothing. *)
Definition guarded (s : System Env) : Prop :=
  verificationAttempted (sys_env s) = true
  /\ Forall (fun k => forall a, settled (k a)) (sys_waiting s).

End EmailVerifiedPage.

(* ===================================================================== *)
(** ** components/Chat.jsx                                                *)
(* ===================================================================== *)

Module Chat.

Import Eff.

Inductive Role : Type := user | assistant.

(** [{ role, content }] or [{ role, type: 'file', filename }]. *)
Inductive Message : Type :=
| Say (role : Role) (content : option string)
| Attach (role : Role) (filename : string).

Record Config : Type := mkConfig {
  model : string;
  temperature : string;      (* as [String(config.temperature)] renders it *)
  system_prompt : option string
}.

Record File : Type := mkFile { file_name : string }.

(** The state variables of the component and [localStorage]. *)
Record Env : Type := mkEnv {
  messages : list Message;
  thread : option Thread;
  config : Config;
  localStorage : gmap string string
}.

Definition setMessages (f : list Message -> list Message) (s : Env) : Env :=
  mkEnv (f (messages s)) (thread s) (config s) (localStorage s).
Definition setThread (t : option Thread) (s : Env) : Env :=
  mkEnv (messages s) t (config s) (localStorage s).
Definition localStorage_setItem (key value : string) (s : Env) : Env :=
  mkEnv (messages s) (thread s) (config s) (<[key := value]> (localStorage s)).
Definition localStorage_removeItem (key : string) (s : Env) : Env :=
  mkEnv (messages s) (thread s) (config s) (delete key (localStorage s)).

(** [m => [...m, entry]] *)
Definition append (entry : Message) (m : list Message) : list Message :=
  m ++ [entry].

Definition quote : string := String (ascii_of_nat 34) "".

Definition msg_error_reply : string := "❌ Error processing your message.".

Section Handlers.

(** [JSON.stringify] and [JSON.parse] on thread records; [JSON_parse]
    is [None] where [JSON.parse] throws or yields no object. *)
Variable JSON_stringify : Thread -> string.
Variable JSON_parse : string -> option Thread.

Definition renameChat : Prog Env unit :=
  Get (fun s =>
    match thread s with
    | None => emit (Alert "No chat selected")
    | Some th =>
        Await (Prompt "Rename chat:" (title th)) (fun a =>
          match a with
          | Typed (Some newTitle) =>
              if negb (JS.truthy newTitle) || String.eqb newTitle (title th)
              then Ret tt
              else
                try_catch
                  (http PUT ("/threads/" +:+ id th)
                        (BJson [("title", newTitle)]);;
                   let updated :=
                     mkThread (id th) newTitle (project_id th)
                              (active_model th) in
                   modify (setThread (Some updated));;
                   modify (localStorage_setItem "last-thread"
                             (JSON_stringify updated));;
                   emit (Alert "Chat renamed"))
                  (fun e => emit (Alert "Rename failed"))
          | _ => Ret tt
          end)
    end).

Definition deleteChat : Prog Env unit :=
  Get (fun s =>
    match thread s with
    | None => emit (Alert "No chat selected")
    | Some th =>
        Await (Confirm ("Delete chat " +:+ quote +:+ title th
                        +:+ quote +:+ "?")) (fun a =>
          match a with
          | Chosen true =>
              try_catch
                (http DELETE ("/threads/" +:+ id th) BNone;;
                 modify (setThread None);;
                 modify (setMessages (fun _ => []));;
                 modify (localStorage_removeItem "last-thread");;
                 emit (Alert "Chat deleted"))
                (fun e => emit (Alert "Delete failed"))
          | _ => Ret tt
          end)
    end).

(** The first step of [send]: reuse the last thread if none is
    selected. *)
Definition reuse_last (s : Env) : Prog Env (option Thread) :=
  match thread s with
  | Some th => Ret (Some th)
  | None =>
      match localStorage s !! "last-thread" with
      | Some saved =>
          if JS.truthy saved then
            match JSON_parse saved with
            | Some th => modify (setThread (Some th));; Ret (Some th)
            | None => Ret None
            end
          else Ret None
      | None => Ret None
      end
  end.

(** The second step: still nothing, create a new thread. *)
Definition ensure_thread (t : option Thread) : Prog Env Thread :=
  match t with
  | Some th => Ret th
  | None =>
      data ← http POST "/threads" (BJson [("title", "New chat")]);
      match data with
      | DThread th =>
          modify (setThread (Some th));;
          modify (localStorage_setItem "last-thread" (JSON_stringify th));;
          Ret th
      | _ => Throw ERuntime
      end
  end.

(** The multipart form of the chat relay call. *)
Definition chat_form (th : Thread) (cfg : Config) (text : string)
           (file : option File) : list (string * string) :=
  [ ("thread_id", id th);
    ("message", JS.or_else (Some text) "");
    ("model", model cfg);
    ("temperature", temperature cfg);
    ("system_prompt", JS.or_else (system_prompt cfg) "") ]
  ++ match file with
     | Some f => [("file", file_name f)]
     | None => []
     end.

(** The optimistic entries of one send. *)
Definition optimistic (text : string) (file : option File) : list Message :=
  (if JS.truthy text then [Say user (Some text)] else [])
  ++ match file with
     | Some f => [Attach user (file_name f)]
     | None => []
     end.

Definition send (text : string) (file : option File) : Prog Env unit :=
  Get (fun s =>
    t0 ← reuse_last s;
    th ← ensure_thread t0;
    when (JS.truthy text)
         (modify (setMessages (append (Say user (Some text)))));;
    match file with
    | Some f => modify (setMessages (append (Attach user (file_name f))))
    | None => Ret tt
    end;;
    try_catch
      (data ← http POST "/chat"
                (BForm (chat_form th (config s) text file));
       match data with
       | DReply reply => modify (setMessages (append (Say assistant reply)))
       | _ => modify (setMessages (append (Say assistant None)))
       end)
      (fun e =>
         emit (ConsoleError "");;
         modify (setMessages
                   (append (Say assistant (Some msg_error_reply)))))).

End Handlers.

(** The environment at the moment the chat relay call was issued, if it
    was. *)
Fixpoint chat_snapshot (tr : list (Event * Env)) : option Env :=
  match tr with
  | [] => None
  | (Asked (Http POST url _), e) :: rest =>
      if String.eqb url "/chat" then Some e else chat_snapshot rest
  | _ :: rest => chat_snapshot rest
  end.

(** The answer the chat relay call received, if it was issued and
    answered. *)
Fixpoint chat_answer (tr : list (Event * Env)) : option Answer :=
  match tr with
  | [] => None
  | (Asked (Http POST url _), _) :: rest =>
      if String.eqb url "/chat" then
        match rest with
        | (Answered a, _) :: _ => Some a
        | _ => None
        end
      else chat_answer rest
  | _ :: rest => chat_answer rest
  end.

(** A stand-in codec and a small chat for the examples below. *)
Definition encode (th : Thread) : string := id th.
Definition decode (saved : string) : option Thread :=
  Some (mkThread saved "New chat" None None).

Definition thread7 : Thread := mkThread "7" "Plans" None None.
Definition settings : Config := mkConfig "gpt-4o-mini" "1" (Some "").

Definition open_chat : Env :=
  mkEnv [Say assistant (Some "hello")] (Some thread7) settings
        {[ "last-thread" := encode thread7 ]}.

Definition no_chat : Env := mkEnv [] None settings ∅.

End Chat.

(* ===================================================================== *)
(** ** More of the JavaScript runtime                                     *)
(* ===================================================================== *)

Module JSText.

(** [s.trimStart()]: drop the leading white space and line terminators
    (below 256 the same characters as [\s]). *)
Fixpoint trimStart (s : string) : string :=
  match s with
  | EmptyString => EmptyString
  | String c s' => if JS.is_space c then trimStart s' else s
  end.

(** [s.trimEnd()]: drop the trailing white space and line terminators. *)
Fixpoint trimEnd (s : string) : string :=
  match s with
  | EmptyString => EmptyString
  | String c s' =>
      match trimEnd s' with
      | EmptyString => if JS.is_space c then EmptyString else String c EmptyString
      | String d r => String c (String d r)
      end
  end.

(** [s.trim()] *)
Definition trim (s : string) : string := trimEnd (trimStart s).

(** Some character of [s] satisfies [p]. *)
Fixpoint some_char (p : ascii -> bool) (s : string) : bool :=
  match s with
  | EmptyString => false
  | String c s' => p c || some_char p s'
  end.

(** The first and the last character of a string, if any. *)
Definition first_char (s : string) : option ascii :=
  match s with
  | EmptyString => None
  | String c _ => Some c
  end.

Fixpoint last_char (s : string) : option ascii :=
  match s with
  | EmptyString => None
  | String c EmptyString => Some c
  | String _ s' => last_char s'
  end.

(** Truthiness of a record id, which is [null] or a number and is held
    as the text [String(id)] gives: [null] and the number 0 are falsy
    (and so is an empty text). *)
Definition truthy_id (o : option string) : bool :=
  match o with
  | Some s => JS.truthy s && negb (String.eqb s "0")
  | None => false
  end.

End JSText.

(* ===================================================================== *)
(** ** components/Signup.jsx: the effects of the component                *)
(* ===================================================================== *)

Module SignupEffects.

Import Eff SignupForm.

(** The members of the special-character class of [validatePassword], as
    a predicate. *)
Definition is_special (c : ascii) : bool :=
  existsb (Ascii.eqb c) (list_ascii_of_string Signup.special_chars).

(** [setEmail]: the [onChange] handler of the email field. *)
Definition setEmail (v : string) (s : Env) : Env :=
  mkEnv v (password s) (name s) (occupation s) (location s)
        (locationError s) (error s) (success s) (loading s)
        (emailValidation s) (passwordValidation s) (touched s)
        (localStorage s) (sessionStorage s) (geolocation s)
        (resolvedTimeZone s).

(** The effect on [[email, touched.email]]: real-time email validation. *)
Definition emailEffect : Prog Env unit :=
  Get (fun s =>
    when (fst (touched s) && JS.truthy (email s))
         (modify (setEmailValidation (Signup.validateEmail (email s))))).

End SignupEffects.

(* ===================================================================== *)
(** ** App.jsx: the session probe                                         *)
(* ===================================================================== *)

Module App.

Import Eff.

(** The state of [App] and the stores of api.js.  [user] holds the body
    of the current-user response as it came. *)
Record Env : Type := mkEnv {
  user : option Data;
  view : string;
  api : Api.ApiState
}.

Definition initial (st : Api.ApiState) : Env := mkEnv None "login" st.

Definition setUser (v : option Data) (s : Env) : Env :=
  mkEnv v (view s) (api s).
Definition setView (v : string) (s : Env) : Env :=
  mkEnv (user s) v (api s).
(** [setAuth(token)] *)
Definition setAuth (token : option string) (s : Env) : Env :=
  mkEnv (user s) (view s) (Api.setAuth token (api s)).

(** The mount effect: probe the current user with the stored token. *)
Definition mountEffect : Prog Env unit :=
  Get (fun s =>
    match Api.getToken (api s) with
    | Some token =>
        if JS.truthy token then
          modify (setAuth (Some token));;
          try_catch
            (res ← http GET "/auth/me" BNone;
             modify (setUser (Some res));;
             modify (setView "chat"))
            (fun _ => modify (setAuth None))
        else Ret tt
    | None => Ret tt
    end).

(** [onLoggedIn(token)], handed to the login form. *)
Definition onLoggedIn (token : option string) : Prog Env unit :=
  modify (setAuth token);;
  res ← http GET "/auth/me" BNone;
  modify (setUser (Some res));;
  modify (setView "chat").

End App.

(* ===================================================================== *)
(** ** components/MessageInput.jsx                                        *)
(* ===================================================================== *)

Module MessageInput.

Record State : Type := mkState {
  value : string;
  attachedFile : option Chat.File
}.

(** [send]: the new state of the input and what is handed to [onSend],
    if anything. *)
Definition send (s : State) : State * option (string * option Chat.File) :=
  let text := JSText.trim (value s) in
  if negb (JS.truthy text)
     && negb (match attachedFile s with Some _ => true | None => false end)
  then (s, None)
  else (mkState "" None, Some (text, attachedFile s)).

End MessageInput.

(* ===================================================================== *)
(** ** components/Chat.jsx: selecting, creating and restoring threads     *)
(* ===================================================================== *)

Module ChatThreads.

Import Eff Chat.

(** A message of the history endpoint. *)
Record ServerMessage : Type := mkServerMessage {
  sm_type : option string;
  sm_sender : option string;
  sm_content : option string;
  sm_filename : string
}.

(** [o === text] for a possibly absent string. *)
Definition is_text (o : option string) (text : string) : bool :=
  match o with
  | Some s => String.eqb s text
  | None => false
  end.

(** The callback of [res.data.map] in [loadMessages]. *)
Definition display (m : ServerMessage) : Message :=
  if is_text (sm_type m) "file" then Attach user (sm_filename m)
  else Say (if is_text (sm_sender m) "user" then user else assistant)
           (sm_content m).

(** The request of [loadMessages(t)]; none when [t] is [null]. *)
Definition loadMessages_request (t : option Thread)
  : option (Method * string * Body) :=
  match t with
  | Some th => Some (GET, "/threads/" +:+ id th +:+ "/messages", BNone)
  | None => None
  end.

(** [loadMessages] once the history has arrived: [setMessages(ms)]. *)
Definition loadMessages_done (history : list ServerMessage) (s : Env) : Env :=
  setMessages (fun _ => map display history) s.

Section Threads.

Variable JSON_stringify : Thread -> string.
Variable JSON_parse : string -> option Thread.

(** [JSON.stringify(t)] for a thread or [null]. *)
Definition stringify_selection (t : option Thread) : string :=
  match t with
  | Some th => JSON_stringify th
  | None => "null"
  end.

(** [selectThread(t)], given the outcome of the history call: [fetched]
    is the history, or [None] when the call fails.  With [t] null no
    call is made. *)
Definition selectThread (t : option Thread)
           (fetched : option (list ServerMessage)) (s : Env) : Env :=
  let s' := localStorage_setItem "last-thread" (stringify_selection t)
              (setThread t s) in
  match loadMessages_request t, fetched with
  | Some _, Some history => loadMessages_done history s'
  | _, _ => s'
  end.

(** The mount effect that restores the last thread.  It runs once, with
    no thread selected; where [JSON.parse] throws the state is left as it
    is, and where it yields [null] the selection is set to what it
    already is. *)
Definition restoreThread (s : Env) : Env :=
  match localStorage s !! "last-thread" with
  | Some saved =>
      if JS.truthy saved then
        match JSON_parse saved with
        | Some th => setThread (Some th) s
        | None => s
        end
      else s
  | None => s
  end.

(** The thread [send] finds in [localStorage] when none is selected. *)
Definition saved_thread (s : Env) : option Thread :=
  match localStorage s !! "last-thread" with
  | Some saved => if JS.truthy saved then JSON_parse saved else None
  | None => None
  end.

(** The payload of [newPersonal(projectId)]. *)
Definition newPersonal_payload (projectId : option string)
  : list (string * string) :=
  ([("title", "New chat")]
  ++ match projectId with
     | Some pid => if JSText.truthy_id projectId then [("project_id", pid)]
                   else []
     | None => []
     end)%list.

(** [newPersonal(projectId)].  A response body that is not a thread is
    outside the model. *)
Definition newPersonal (projectId : option string) : Prog Env unit :=
  data ← http POST "/threads" (BJson (newPersonal_payload projectId));
  match data with
  | DThread th =>
      modify (setThread (Some th));;
      modify (localStorage_setItem "last-thread" (JSON_stringify th));;
      modify (setMessages (fun _ => []));;
      emit (DispatchEvent "refresh-threads")
  | _ => Throw ERuntime
  end.

End Threads.

(** A codec for the examples: [Chat.decode], reading "null" as no
    thread. *)
Definition decode_or_null (saved : string) : option Thread :=
  if String.eqb saved "null" then None else decode saved.

Definition thread9 : Thread := mkThread "9" "New chat" None None.

(** A page load with the [localStorage] of [s]: the initial state of the
    component ([messages] empty, no thread). *)
Definition reload (s : Env) : Env :=
  mkEnv [] None (config s) (localStorage s).

End ChatThreads.

(* ===================================================================== *)
(** ** components/Sidebar.jsx: grouping the threads                        *)
(* ===================================================================== *)

Module Sidebar.

Import Eff.

(** One step of the [forEach] in [load]: a thread with a project goes
    to the list of its project (created on first use), any other to the
    personal list. *)
Definition place (acc : list Thread * gmap string (list Thread)) (t : Thread)
  : list Thread * gmap string (list Thread) :=
  match project_id t with
  | Some pid =>
      if JSText.truthy_id (Some pid) then
        (fst acc,
         <[pid := (default [] (snd acc !! pid) ++ [t])%list]> (snd acc))
      else ((fst acc ++ [t])%list, snd acc)
  | None => ((fst acc ++ [t])%list, snd acc)
  end.

(** [personal] and [byProject] after the loop. *)
Definition group (threads : list Thread)
  : list Thread * gmap string (list Thread) :=
  fold_left place threads ([], ∅).

(** A thread with no project: [t.project_id] is falsy. *)
Definition is_personal (t : Thread) : bool :=
  negb (JSText.truthy_id (project_id t)).

(** A thread of the project [pid]. *)
Definition in_project (pid : string) (t : Thread) : bool :=
  match project_id t with
  | Some p => JSText.truthy_id (Some p) && String.eqb p pid
  | None => false
  end.

End Sidebar.

(* ===================================================================== *)
(** ** components/ProjectModal.jsx: saving a project                      *)
(* ===================================================================== *)

Module ProjectModal.

(** What [handleSave] does: an alert, or [onSave({ name, description })]. *)
Inductive SaveResult : Type :=
| Refused (alert : string)
| Saved (name description : string).

Definition handleSave (name description : string) : SaveResult :=
  if negb (JS.truthy (JSText.trim name)) then Refused "Project name is required"
  else Saved (JSText.trim name) (JSText.trim description).

End ProjectModal.

(* ===================================================================== *)
(** * Properties                                                          *)
(* ===================================================================== *)

(** Case analysis on whatever a goal or hypothesis still branches on. *)
Ltac split_cases :=
  repeat match goal with
         | |- context [match ?x with _ => _ end] => destruct x eqn:?
         | H : context [match ?x with _ => _ end] |- _ => destruct x eqn:?
         end.

(** Read the environment or the answer off a computed trace and
    compare the two message lists. *)
Ltac close_case :=
  repeat match goal with
         | H : Some _ = Some _ |- _ => inversion H; subst; clear H
         end;
  simpl; unfold Chat.append;
  rewrite <- ?app_assoc, ?app_nil_r; simpl; reflexivity.

(** ** Strings and regular expressions *)

Module JSFacts.

Import JS.

Lemma append_nil_r (s : string) : s +:+ "" = s.
Proof. induction s as [|c s IH]; simpl; [reflexivity | now rewrite IH]. Qed.

Lemma append_eq_nil (a b : string) : a +:+ b = "" -> a = "" /\ b = "".
Proof. destruct a; simpl; [intros ->; split; reflexivity | discriminate]. Qed.

Lemma append_eq_cons (a b : string) (c : ascii) (s : string) :
  a +:+ b = String c s ->
  (a = "" /\ b = String c s) \/ (exists a', a = String c a' /\ s = a' +:+ b).
Proof.
  destruct a as [|x a]; simpl; intros H.
  - left; split; [reflexivity | exact H].
  - injection H as -> <-. right. exists a. split; reflexivity.
Qed.

Lemma all_chars_app (p : ascii -> bool) (a b : string) :
  all_chars p (a +:+ b) = all_chars p a && all_chars p b.
Proof.
  induction a as [|c a IH]; simpl; [reflexivity|].
  rewrite IH. now rewrite andb_assoc.
Qed.

(** *** The derivative matcher decides the language *)

Lemma nullable_lang (r : regex) : nullable r = true <-> lang r "".
Proof.
  split.
  - induction r as [| |p|r1 IH1 r2 IH2|r1 IH1 r2 IH2|r IH]; simpl; intros H.
    + discriminate.
    + constructor.
    + discriminate.
    + apply andb_true_iff in H as [H1 H2].
      change "" with ("" +:+ ""). constructor; auto.
    + apply orb_true_iff in H as [H|H];
        [apply lang_alt_l | apply lang_alt_r]; auto.
    + constructor.
  - intros H. remember "" as s eqn:Es.
    induction H as [|p c Hp|r1 r2 s1 s2 H1 IH1 H2 IH2|r1 r2 s H IH
                    |r1 r2 s H IH|r|r s1 s2 H1 IH1 H2 IH2]; simpl;
      try reflexivity; try discriminate.
    + apply append_eq_nil in Es as [-> ->].
      now rewrite IH1, IH2.
    + rewrite IH by assumption. reflexivity.
    + rewrite IH by assumption. apply orb_true_r.
Qed.

Lemma deriv_sound (c : ascii) (r : regex) :
  forall s, lang (deriv c r) s -> lang r (String c s).
Proof.
  induction r as [| |p|r1 IH1 r2 IH2|r1 IH1 r2 IH2|r IH]; simpl; intros s H.
  - inversion H.
  - inversion H.
  - destruct (p c) eqn:Hp; inversion H; subst. now constructor.
  - destruct (nullable r1) eqn:Hn.
    + inversion H as [| | | ? ? ? Hl | ? ? ? Hr | |]; subst.
      * inversion Hl as [| |? ? s1 s2 Ha Hb| | | |]; subst.
        change (String c (s1 +:+ s2)) with (String c s1 +:+ s2).
        constructor; auto.
      * change (String c s) with ("" +:+ String c s).
        constructor; [now apply nullable_lang | auto].
    + inversion H as [| |? ? s1 s2 Ha Hb| | | |]; subst.
      change (String c (s1 +:+ s2)) with (String c s1 +:+ s2).
      constructor; auto.
  - inversion H; subst; [apply lang_alt_l | apply lang_alt_r]; auto.
  - inversion H as [| |? ? s1 s2 Ha Hb| | | |]; subst.
    change (String c (s1 +:+ s2)) with (String c s1 +:+ s2).
    constructor; auto.
Qed.

Lemma deriv_complete (c : ascii) (r : regex) (s0 : string) :
  lang r s0 -> forall s, s0 = String c s -> lang (deriv c r) s.
Proof.
  induction 1 as [|p x Hp|r1 r2 s1 s2 H1 IH1 H2 IH2|r1 r2 s' H IH
                  |r1 r2 s' H IH|r|r s1 s2 H1 IH1 H2 IH2]; intros s E; simpl.
  - discriminate.
  - injection E as -> <-. rewrite Hp. constructor.
  - apply append_eq_cons in E as [[-> E]|(a' & -> & ->)].
    + apply nullable_lang in H1. rewrite H1.
      apply lang_alt_r. now apply IH2.
    + destruct (nullable r1).
      * apply lang_alt_l. constructor; auto.
      * constructor; auto.
  - apply lang_alt_l. now apply IH.
  - apply lang_alt_r. now apply IH.
  - discriminate.
  - apply append_eq_cons in E as [[-> E]|(a' & -> & ->)].
    + now apply IH2.
    + constructor; auto.
Qed.

Lemma matches_lang (r : regex) (s : string) : matches r s = true <-> lang r s.
Proof.
  revert r. induction s as [|c s IH]; intros r; simpl.
  - apply nullable_lang.
  - rewrite IH. split.
    + apply deriv_sound.
    + intros H. now apply (deriv_complete c r (String c s)).
Qed.

(** *** Iterated character classes *)

Lemma lang_star_cls (p : ascii -> bool) (s : string) :
  lang (Star (Cls p)) s <-> all_chars p s = true.
Proof.
  split.
  - intros H. remember (Star (Cls p)) as r eqn:Er.
    induction H as [|q c Hq|r1 r2 s1 s2 H1 IH1 H2 IH2|r1 r2 s' H IH
                    |r1 r2 s' H IH|r'|r' s1 s2 H1 IH1 H2 IH2];
      try discriminate.
    + reflexivity.
    + injection Er as ->.
      rewrite all_chars_app, IH2 by reflexivity.
      inversion H1; subst. simpl. now rewrite H0.
  - induction s as [|c s IH]; simpl; intros H.
    + constructor.
    + apply andb_true_iff in H as [Hc Hs].
      change (String c s) with (String c "" +:+ s).
      constructor; [now constructor | auto].
Qed.

Lemma lang_plus_cls (p : ascii -> bool) (s : string) :
  lang (Plus (Cls p)) s <-> s <> "" /\ all_chars p s = true.
Proof.
  unfold Plus. split.
  - intros H. inversion H as [| |? ? s1 s2 Ha Hb| | | |]; subst.
    inversion Ha; subst. simpl. split; [discriminate|].
    apply lang_star_cls in Hb. now rewrite H1, Hb.
  - intros [Hne H]. destruct s as [|c s]; [congruence|].
    simpl in H. apply andb_true_iff in H as [Hc Hs].
    change (String c s) with (String c "" +:+ s).
    constructor; [now constructor | now apply lang_star_cls].
Qed.

Lemma lang_chr (c : ascii) (s : string) :
  lang (Chr c) s <-> s = String c "".
Proof.
  unfold Chr. split.
  - intros H. inversion H; subst.
    apply Ascii.eqb_eq in H1. now subst.
  - intros ->. constructor. apply Ascii.eqb_refl.
Qed.

(** *** [split], [toLowerCase], [includes] *)

Lemma split_no_sep (sep : ascii) (s : string) :
  all_chars (fun c => negb (Ascii.eqb c sep)) s = true ->
  split sep s = [s].
Proof.
  induction s as [|c s IH]; simpl; [reflexivity|].
  intros H. apply andb_true_iff in H as [Hc Hs].
  apply negb_true_iff in Hc. rewrite Hc, IH by assumption. reflexivity.
Qed.

Lemma split_at_sep (sep : ascii) (a b : string) :
  all_chars (fun c => negb (Ascii.eqb c sep)) a = true ->
  split sep (a +:+ String sep b) = a :: split sep b.
Proof.
  induction a as [|c a IH]; simpl.
  - intros _. now rewrite Ascii.eqb_refl.
  - intros H. apply andb_true_iff in H as [Hc Hs].
    apply negb_true_iff in Hc. rewrite Hc, IH by assumption. reflexivity.
Qed.

Lemma toLowerCase_app (a b : string) :
  toLowerCase (a +:+ b) = toLowerCase a +:+ toLowerCase b.
Proof. induction a as [|c a IH]; simpl; [reflexivity | now rewrite IH]. Qed.

Lemma startsWith_app (p s : string) : startsWith p (p +:+ s) = true.
Proof.
  induction p as [|c p IH]; simpl; [reflexivity|].
  now rewrite Ascii.eqb_refl, IH.
Qed.

Lemma includes_here (s sub : string) :
  startsWith sub s = true -> includes s sub = true.
Proof. intros H. destruct s; simpl; rewrite H; reflexivity. Qed.

Lemma includes_later (c : ascii) (s sub : string) :
  includes s sub = true -> includes (String c s) sub = true.
Proof. intros H. simpl. rewrite H. apply orb_true_r. Qed.

Lemma includes_app (a sub b : string) :
  includes (a +:+ sub +:+ b) sub = true.
Proof.
  induction a as [|c a IH].
  - change (includes (sub +:+ b) sub = true).
    apply includes_here, startsWith_app.
  - change (includes (String c (a +:+ sub +:+ b)) sub = true).
    apply includes_later, IH.
Qed.

Lemma all_chars_weaken (p q : ascii -> bool) (s : string) :
  (forall c, p c = true -> q c = true) ->
  all_chars p s = true -> all_chars q s = true.
Proof.
  intros Hpq. induction s as [|c s IH]; simpl; [reflexivity|].
  intros H. apply andb_true_iff in H as [Hc Hs].
  now rewrite (Hpq _ Hc), IH.
Qed.

Lemma count_chars_app (p : ascii -> bool) (a b : string) :
  count_chars p (a +:+ b) = count_chars p a + count_chars p b.
Proof. induction a as [|c a IH]; simpl; [reflexivity | rewrite IH; lia]. Qed.

Lemma all_chars_count (p : ascii -> bool) (s : string) :
  all_chars p s = true <-> count_chars (fun c => negb (p c)) s = 0.
Proof.
  induction s as [|c s IH]; simpl; [tauto|].
  rewrite andb_true_iff, IH. destruct (p c); simpl; intuition lia.
Qed.

End JSFacts.

(** ** validateEmail and validatePassword *)

Module SignupFacts.

Import JS JSFacts Signup.

Lemma notSpaceAt_not_at (c : ascii) :
  notSpaceAt c = true -> negb (Ascii.eqb c "@") = true.
Proof.
  unfold notSpaceAt. intros H.
  apply negb_true_iff, orb_false_iff in H as [_ H]. now rewrite H.
Qed.

(** What a string matched by [emailRegex] looks like. *)
Lemma emailRegex_shape (email : string) :
  matches emailRegex email = true <->
  exists a b c,
    email = a +:+ "@" +:+ b +:+ "." +:+ c
    /\ (a <> "" /\ all_chars notSpaceAt a = true)
    /\ (b <> "" /\ all_chars notSpaceAt b = true)
    /\ (c <> "" /\ all_chars notSpaceAt c = true).
Proof.
  rewrite matches_lang. unfold emailRegex. split.
  - intros H.
    inversion H as [| |? ? a s1 Ha H1| | | |]; subst.
    inversion H1 as [| |? ? at_ s2 Hat H2| | | |]; subst.
    inversion H2 as [| |? ? b s3 Hb H3| | | |]; subst.
    inversion H3 as [| |? ? dot c Hdot Hc| | | |]; subst.
    apply lang_chr in Hat, Hdot. subst.
    apply lang_plus_cls in Ha, Hb, Hc.
    exists a, b, c. auto.
  - intros (a & b & c & -> & Ha & Hb & Hc).
    apply lang_plus_cls in Ha, Hb, Hc.
    constructor; [assumption|].
    change ("@" +:+ b +:+ "." +:+ c)
      with (String "@" "" +:+ (b +:+ String "." "" +:+ c)).
    constructor; [now apply lang_chr|].
    constructor; [assumption|].
    constructor; [now apply lang_chr | assumption].
Qed.

(** The domain of a string matched by [emailRegex]: lower-cased, not
    empty, and with a dot in it. *)
Lemma domain_of_matched (email : string) :
  matches emailRegex email = true ->
  exists d, domain_of email = Some d
            /\ truthy d = true /\ includes d "." = true.
Proof.
  intros H. apply emailRegex_shape in H
    as (a & b & c & -> & [_ Ha] & [Hbne Hb] & [_ Hc]).
  exists (toLowerCase (b +:+ "." +:+ c)).
  assert (Hsplit : split "@" (a +:+ "@" +:+ b +:+ "." +:+ c)
                   = [a; b +:+ "." +:+ c]).
  { change (a +:+ "@" +:+ b +:+ "." +:+ c)
      with (a +:+ String "@" (b +:+ "." +:+ c)).
    rewrite split_at_sep
      by (eapply all_chars_weaken; [apply notSpaceAt_not_at | exact Ha]).
    rewrite split_no_sep; [reflexivity|].
    eapply all_chars_weaken; [apply notSpaceAt_not_at|].
    rewrite all_chars_app, Hb. simpl. now rewrite Hc. }
  unfold domain_of. rewrite Hsplit. simpl. split; [reflexivity|].
  split.
  - destruct b; [congruence | reflexivity].
  - rewrite toLowerCase_app.
    change (includes (toLowerCase b +:+ "." +:+ toLowerCase c) "." = true).
    apply includes_app.
Qed.

Lemma In_push_if (cond : bool) (m msg : string) (errs : list string) :
  In m (push_if cond msg errs) -> In m errs \/ m = msg.
Proof.
  unfold push_if. destruct cond; [|auto].
  rewrite in_app_iff. simpl. intuition auto.
Qed.

Lemma push_if_keeps (cond : bool) (m msg : string) (errs : list string) :
  In m errs -> In m (push_if cond msg errs).
Proof.
  unfold push_if. destruct cond; [|auto].
  rewrite in_app_iff. auto.
Qed.

(** The three shapes of a [validateEmail] result. *)
Lemma validateEmail_cases (email : string) :
  validateEmail email = mkEmailResult false [msg_email_required]
  \/ validateEmail email = mkEmailResult false [msg_email_format]
  \/ exists d b1 b2,
       matches emailRegex email = true
       /\ domain_of email = Some d
       /\ errors (validateEmail email)
          = push_if b2 msg_email_test (push_if b1 msg_email_disposable []).
Proof.
  unfold validateEmail.
  destruct (truthy email); simpl; [|auto].
  destruct (matches emailRegex email) eqn:Hm; simpl; [|auto].
  right; right.
  destruct (domain_of_matched email Hm) as (d & Hd & Ht & Hdot).
  rewrite Hd, Ht, Hdot. simpl.
  exists d. eexists. eexists. split; [reflexivity|]. split; reflexivity.
Qed.

(** The twelve listed domains: each is in lower case and of the shape
    the regular expression wants after the at sign. *)
Lemma disposable_domain_facts (d : string) :
  In d DISPOSABLE_DOMAINS ->
  all_chars notSpaceAt d = true
  /\ matches domainRegex d = true
  /\ toLowerCase d = d
  /\ has DISPOSABLE_DOMAINS d = true
  /\ truthy d = true.
Proof.
  unfold DISPOSABLE_DOMAINS. simpl In. intros H.
  repeat (destruct H as [<-|H]; [vm_compute; auto 6|]).
  contradiction.
Qed.

(** With the eight verdicts abstracted: there is no error exactly when
    every check passed. *)
Lemma no_error_iff_all_passed (c : Checks) (b1 b2 b3 b4 b5 b6 b7 b8 : bool) :
  let checks :=
    {| chk_length := decide_check (chk_length c) b1 err_length;
       chk_uppercase := decide_check (chk_uppercase c) b2 err_uppercase;
       chk_lowercase := decide_check (chk_lowercase c) b3 err_lowercase;
       chk_number := decide_check (chk_number c) b4 err_number;
       chk_special := decide_check (chk_special c) b5 err_special;
       chk_common := decide_check (chk_common c) b6 err_common;
       chk_sequential := decide_check (chk_sequential c) b7 err_sequential;
       chk_repeated := decide_check (chk_repeated c) b8 err_repeated |} in
  Nat.eqb (length (collect_errors checks)) 0 = all_passed checks.
Proof.
  destruct b1, b2, b3, b4, b5, b6, b7, b8; reflexivity.
Qed.

(** C5.  For every password, [validatePassword] reports [isValid] true
    exactly when all eight checks (length, uppercase, lowercase, number,
    special, common, sequential, repeated) of the per-check structure it
    returns are passed: the verdict equals the conjunction of the eight
    [passed] flags. *)
Theorem validatePassword_valid_iff_all_checks (password : string) :
  pw_isValid (validatePassword password)
  = all_passed (pw_checks (validatePassword password)).
Proof.
  unfold validatePassword.
  destruct (truthy password); simpl negb; cbv iota.
  - unfold pw_isValid, pw_checks, run_checks.
    apply no_error_iff_all_passed.
  - reflexivity.
Qed.

(** C2, as the code has it.  For "abc12345" three checks fail, not two:
    uppercase, special and sequential (the password contains "abc" and
    "123"); [isValid] is false and the errors are the three messages of
    these checks, in that order. *)
Theorem validatePassword_abc12345 :
  let r := validatePassword "abc12345" in
  failed (pw_checks r) = ["uppercase"; "special"; "sequential"]
  /\ pw_isValid r = false
  /\ pw_errors r = [err_uppercase; err_special; err_sequential].
Proof. vm_compute. auto. Qed.

(** C2, as stated, fails: it is not the case that exactly the uppercase
    and special checks fail on "abc12345" with exactly their two error
    strings reported. *)
Lemma validatePassword_abc12345_not_two :
  ~ (let r := validatePassword "abc12345" in
     failed (pw_checks r) = ["uppercase"; "special"]
     /\ pw_isValid r = false
     /\ (forall e, In e (pw_errors r) <-> In e [err_uppercase; err_special])).
Proof.
  intros (H & _). vm_compute in H. discriminate.
Qed.

(** A string [l + "@" + rest] matched by [emailRegex] has a local part
    [l] that is not empty and has no white space and no at sign. *)
Lemma matched_local_part (l rest : string) :
  matches emailRegex (l +:+ "@" +:+ rest) = true ->
  l <> "" /\ all_chars notSpaceAt l = true.
Proof.
  intros H. apply emailRegex_shape in H
    as (a & b & c & E & [Hane Ha] & [_ Hb] & [_ Hc]).
  split.
  - intros ->. destruct a as [|x a]; [congruence|].
    injection E as <- _. discriminate Ha.
  - apply all_chars_count in Ha, Hb, Hc. apply all_chars_count.
    apply (f_equal (count_chars (fun c => negb (notSpaceAt c)))) in E.
    change (a +:+ "@" +:+ b +:+ "." +:+ c)
      with (a +:+ String "@" (b +:+ String "." c)) in E.
    change (l +:+ "@" +:+ rest) with (l +:+ String "@" rest) in E.
    rewrite !count_chars_app in E. simpl in E.
    rewrite count_chars_app in E. simpl in E.
    change (negb (notSpaceAt "@")) with true in E.
    change (negb (notSpaceAt ".")) with false in E.
    lia.
Qed.

(** C4, as the code has it.  For every domain [d] of the disposable set
    and every local part [l], [validateEmail (l + "@" + d)] is invalid.
    When [l] is not empty and has no white space and no at sign, the
    disposable-domain message is among the errors; for any other [l] the
    format check returns first and the format error is the only one. *)
Theorem validateEmail_disposable (l d : string) :
  In d DISPOSABLE_DOMAINS ->
  isValid (validateEmail (l +:+ "@" +:+ d)) = false
  /\ (l <> "" -> all_chars notSpaceAt l = true ->
      In msg_email_disposable (errors (validateEmail (l +:+ "@" +:+ d))))
  /\ (l = "" \/ all_chars notSpaceAt l = false ->
      validateEmail (l +:+ "@" +:+ d) = mkEmailResult false [msg_email_format]).
Proof.
  intros Hd.
  destruct (disposable_domain_facts d Hd) as (Hdc & Hdm & Hlow & Hhas & Htr).
  assert (Hbad : l = "" \/ all_chars notSpaceAt l = false ->
                 validateEmail (l +:+ "@" +:+ d)
                 = mkEmailResult false [msg_email_format]).
  { intros Hl. unfold validateEmail.
    replace (truthy (l +:+ "@" +:+ d)) with true
      by (destruct l; reflexivity).
    destruct (matches emailRegex (l +:+ "@" +:+ d)) eqn:Hm; [|reflexivity].
    apply matched_local_part in Hm as [Hne Hall].
    destruct Hl as [Hl|Hl]; congruence. }
  assert (Hgood : l <> "" -> all_chars notSpaceAt l = true ->
                  isValid (validateEmail (l +:+ "@" +:+ d)) = false
                  /\ In msg_email_disposable
                        (errors (validateEmail (l +:+ "@" +:+ d)))).
  { intros Hne Hl.
    assert (Hm : matches emailRegex (l +:+ "@" +:+ d) = true).
    { apply matches_lang. unfold emailRegex.
      constructor; [now apply lang_plus_cls|].
      change ("@" +:+ d) with (String "@" "" +:+ d).
      constructor; [now apply lang_chr|].
      now apply matches_lang in Hdm. }
    assert (Hdom : domain_of (l +:+ "@" +:+ d) = Some d).
    { unfold domain_of.
      change (l +:+ "@" +:+ d) with (l +:+ String "@" d).
      rewrite split_at_sep
        by (eapply all_chars_weaken; [apply notSpaceAt_not_at | exact Hl]).
      rewrite split_no_sep
        by (eapply all_chars_weaken; [apply notSpaceAt_not_at | exact Hdc]).
      simpl. now rewrite Hlow. }
    unfold validateEmail.
    replace (truthy (l +:+ "@" +:+ d)) with true
      by (destruct l; [congruence | reflexivity]).
    rewrite Hm, Hdom, Htr, Hhas. simpl negb. cbv iota.
    set (errs := push_if _ msg_email_nodot _).
    assert (Hin : In msg_email_disposable errs).
    { subst errs. do 2 apply push_if_keeps. simpl. auto. }
    split; [|exact Hin].
    simpl isValid. destruct errs; [contradiction | reflexivity]. }
  split; [|split; [apply Hgood | exact Hbad]].
  destruct l as [|c l'] eqn:El.
  - rewrite Hbad by auto. reflexivity.
  - rewrite <- El in *.
    destruct (all_chars notSpaceAt l) eqn:Hall.
    + apply Hgood; [subst l; discriminate | reflexivity].
    + rewrite Hbad by auto. reflexivity.
Qed.

Lemma validateEmail_disposable_witness :
  In msg_email_disposable
     (errors (validateEmail ("bob" +:+ "@" +:+ "yopmail.com")))
  /\ validateEmail ("a b" +:+ "@" +:+ "yopmail.com")
     = mkEmailResult false [msg_email_format].
Proof.
  assert (Hd : In "yopmail.com" DISPOSABLE_DOMAINS) by (simpl; auto 12).
  split.
  - apply (proj1 (proj2 (validateEmail_disposable "bob" "yopmail.com" Hd)));
      [discriminate | reflexivity].
  - apply (proj2 (proj2 (validateEmail_disposable "a b" "yopmail.com" Hd))).
    right. reflexivity.
Defined.

(** C4, as stated, fails: with the local part "john doe" (white space
    in it) and the disposable domain "tempmail.com", the format check
    returns first and the disposable-domain message is not reported. *)
Lemma validateEmail_disposable_local_part_matters :
  In "tempmail.com" DISPOSABLE_DOMAINS
  /\ validateEmail ("john doe" +:+ "@" +:+ "tempmail.com")
     = mkEmailResult false [msg_email_format]
  /\ ~ In msg_email_disposable
         (errors (validateEmail ("john doe" +:+ "@" +:+ "tempmail.com"))).
Proof.
  split; [simpl; auto|]. split; [reflexivity|].
  intros H. vm_compute in H. destruct H as [H|[]]. discriminate.
Qed.

(** C10.  For every email: if it passes the format regular expression,
    the extracted domain exists and contains a dot; hence the missing-dot
    branch is never taken, and the message "Email domain is invalid"
    appears in no [validateEmail] result. *)
Theorem validateEmail_missing_dot_unreachable (email : string) :
  (matches emailRegex email = true ->
   exists d, domain_of email = Some d /\ includes d "." = true)
  /\ ~ In msg_email_nodot (errors (validateEmail email)).
Proof.
  split.
  - intros H. destruct (domain_of_matched email H) as (d & Hd & _ & Hdot).
    exists d. auto.
  - destruct (validateEmail_cases email)
      as [-> | [-> | (d & b1 & b2 & _ & _ & ->)]]; simpl.
    + intros [H|[]]. discriminate.
    + intros [H|[]]. discriminate.
    + intros H.
      apply In_push_if in H as [H|H]; [|discriminate].
      apply In_push_if in H as [[]|H]. discriminate.
Qed.

Lemma validateEmail_missing_dot_unreachable_witness :
  (exists d, domain_of "bob@Gmail.com" = Some d /\ includes d "." = true)
  /\ ~ In msg_email_nodot (errors (validateEmail "bob@Gmail.com")).
Proof.
  destruct (validateEmail_missing_dot_unreachable "bob@Gmail.com")
    as [Hdom Hnot].
  split; [apply Hdom; reflexivity | exact Hnot].
Defined.

End SignupFacts.

(** ** api.js *)

Module ApiFacts.

Import Api.

(** C9.  After [setAuth t] the stored token and the default
    [Authorization] header agree: for a non-empty [t] the stored token is
    [t] and the header is "Bearer " followed by [t]; for [null] (and for
    the empty string, which is falsy as well) both are absent; so in every
    case one is present exactly when the other is. *)
Theorem setAuth_keeps_token_and_header_in_sync
        (t : option string) (st : ApiState) :
  let st' := setAuth t st in
  (forall s, t = Some s -> s <> "" ->
     getToken st' = Some s
     /\ headers st' !! "Authorization" = Some ("Bearer " +:+ s))
  /\ (JS.truthy_opt t = false ->
      getToken st' = None /\ headers st' !! "Authorization" = None)
  /\ (is_Some (getToken st') <-> is_Some (headers st' !! "Authorization")).
Proof.
  unfold getToken. destruct t as [[|c s]|]; simpl.
  - rewrite !lookup_delete_eq. split; [congruence|].
    split; [auto|]. split; intros [? ?]; discriminate.
  - rewrite !lookup_insert_eq. split.
    + intros s' [= <-] _. auto.
    + split; [discriminate|]. split; intros _; eauto.
  - rewrite !lookup_delete_eq. split; [discriminate|].
    split; [auto|]. split; intros [? ?]; discriminate.
Qed.

Lemma setAuth_keeps_token_and_header_in_sync_witness :
  let st' := setAuth (Some "abc") (mkApiState ∅ ∅) in
  (getToken st' = Some "abc"
   /\ headers st' !! "Authorization" = Some "Bearer abc")
  /\ (let st0 := setAuth None st' in
      getToken st0 = None /\ headers st0 !! "Authorization" = None).
Proof.
  split.
  - apply (setAuth_keeps_token_and_header_in_sync
             (Some "abc") (mkApiState ∅ ∅));
      [reflexivity | discriminate].
  - apply (setAuth_keeps_token_and_header_in_sync
             None (setAuth (Some "abc") (mkApiState ∅ ∅))).
    reflexivity.
Defined.

End ApiFacts.

(** ** Signup.jsx: location and submission *)

Module SignupFormFacts.

Import JS JSFacts Eff SignupForm.

(** C6.  For every reverse-geocoding response, the city of the location
    record is the first non-empty value among [address.city],
    [address.town], [address.village], or "Unknown" when there is none;
    its state and country are [address.state] and [address.country], or
    empty when absent; the formatted string is the non-empty parts among
    this city, state and country joined with ", "; and the coordinates
    and the time zone are the ones handed in. *)
Theorem buildLocation_city_and_formatted
        (data : option Address) (lat lon tz : string) :
  let loc := buildLocation data lat lon tz in
  let a := address_of data in
  let the_city :=
    first_nonempty [addr_city a; addr_town a; addr_village a] "Unknown" in
  let the_state := first_nonempty [addr_state a] "" in
  let the_country := first_nonempty [addr_country a] "" in
  city loc = the_city
  /\ formatted loc
     = join ", " (nonempty_parts [city loc; state loc; country loc])
  /\ state loc = the_state
  /\ country loc = the_country
  /\ formatted loc
     = join ", " (nonempty_parts [the_city; the_state; the_country])
  /\ latitude loc = lat
  /\ longitude loc = lon
  /\ timezone loc = tz.
Proof.
  destruct data as [[c t v s co]|]; simpl; [|auto 10].
  destruct c as [[|? ?]|], t as [[|? ?]|], v as [[|? ?]|],
           s as [[|? ?]|], co as [[|? ?]|];
    simpl; rewrite ?append_nil_r; auto 10.
Qed.

Local Opaque Signup.validateEmail Signup.validatePassword.

(** C1.  For every state of the signup form and whatever the backend
    would answer: if the email or the password in the form fails its
    validation, [submit] issues no request at all, returns, and leaves
    the local validation error set; if both pass, it issues exactly one
    request, the POST to /auth/signup carrying the payload of the form. *)
Theorem submit_guarded_by_validation (s : Env) (answers : list Answer) :
  let o := run submit answers s in
  (Signup.isValid (Signup.validateEmail (email s)) = false
   \/ Signup.pw_isValid (Signup.validatePassword (password s)) = false ->
   requests (out_trace o) = []
   /\ out_result o = Returned tt
   /\ error (out_env o) = Some msg_fix_errors)
  /\ (Signup.isValid (Signup.validateEmail (email s)) = true ->
      Signup.pw_isValid (Signup.validatePassword (password s)) = true ->
      requests (out_trace o) = [(POST, "/auth/signup", BJson (payload s))]).
Proof.
  unfold submit. simpl. split.
  - intros H.
    assert (E : negb (Signup.isValid (Signup.validateEmail (email s)))
                || negb (Signup.pw_isValid
                           (Signup.validatePassword (password s))) = true).
    { destruct H as [-> | ->]; simpl; [reflexivity | apply orb_true_r]. }
    rewrite E. simpl. auto.
  - intros -> ->. simpl.
    destruct answers as [|a rest]; simpl; [reflexivity|].
    destruct a as [d|detail|b|text|la lo|]; reflexivity.
Qed.

Lemma submit_guarded_by_validation_witness :
  (requests (out_trace (run submit [HttpOk DNone]
                            (form "bob@tempmail.com" "Passw0rd!"))) = []
   /\ out_result (run submit [HttpOk DNone]
                      (form "bob@tempmail.com" "Passw0rd!")) = Returned tt
   /\ error (out_env (run submit [HttpOk DNone]
                          (form "bob@tempmail.com" "Passw0rd!")))
      = Some msg_fix_errors)
  /\ requests (out_trace (run submit [HttpOk DNone]
                              (form "bob@gmail.com" "Passw0rd!")))
     = [(POST, "/auth/signup",
         BJson [("email", "bob@gmail.com"); ("password", "Passw0rd!")])].
Proof.
  split.
  - apply (submit_guarded_by_validation
             (form "bob@tempmail.com" "Passw0rd!") [HttpOk DNone]).
    left. vm_compute. reflexivity.
  - apply (submit_guarded_by_validation
             (form "bob@gmail.com" "Passw0rd!") [HttpOk DNone]);
      vm_compute; reflexivity.
Defined.

End SignupFormFacts.

(** ** EmailVerifiedPage.jsx: the guard of the verification call *)

Module EmailVerifiedPageFacts.

Import JS Eff Loop EmailVerifiedPage.

Lemma requests_snoc_quiet (tr : list (Event * Env)) (ev : Event) (e : Env) :
  (forall m url body, ev <> Asked (Http m url body)) ->
  requests (tr ++ [(ev, e)]) = requests tr.
Proof.
  intros Hq. unfold requests. rewrite flat_map_app. simpl.
  destruct ev as [o|q|a]; simpl; try apply app_nil_r.
  destruct q; simpl; try apply app_nil_r. now destruct (Hq m url body).
Qed.

(** Running a settled program changes neither the requests issued nor
    what is waiting, and keeps the guard up. *)
Lemma start_settled (p : Prog Env unit) :
  settled p ->
  forall s, verificationAttempted (sys_env s) = true ->
    verificationAttempted (sys_env (start p s)) = true
    /\ sys_waiting (start p s) = sys_waiting s
    /\ requests (sys_trace (start p s)) = requests (sys_trace s).
Proof.
  induction 1 as [a|e|k Hk IH|f k Hf Hk IH|o k Hk IH]; intros s Hs; simpl.
  - auto.
  - auto.
  - now apply IH.
  - destruct (IH (mkSystem (f (sys_env s)) (sys_waiting s) (sys_trace s)))
      as (H1 & H2 & H3); [now apply Hf|]. auto.
  - destruct (IH (mkSystem (sys_env s) (sys_waiting s)
                           (sys_trace s ++ [(Emitted o, sys_env s)])))
      as (H1 & H2 & H3); [assumption|].
    simpl in H2, H3. rewrite requests_snoc_quiet in H3 by discriminate. auto.
Qed.

(** With the guard up, [verifyEmail] returns at once. *)
Lemma start_verifyEmail_guarded (token : option string) (s : System Env) :
  verificationAttempted (sys_env s) = true ->
  start (verifyEmail token) s = s.
Proof. intros H. unfold verifyEmail. simpl. now rewrite H. Qed.

(** The first run with a token: the guard goes up, one GET is issued,
    and the continuation parked for its answer is settled. *)
Lemma start_verifyEmail_first (tok : string) (s : System Env) :
  verificationAttempted (sys_env s) = false ->
  truthy tok = true ->
  exists k,
    start (verifyEmail (Some tok)) s
    = mkSystem (setAttempted true (sys_env s)) (sys_waiting s ++ [k])
               (sys_trace s
                ++ [(Asked (Http GET (verify_url tok) BNone),
                     setAttempted true (sys_env s))])
    /\ forall a, settled (k a).
Proof.
  intros Hf Ht. unfold verifyEmail. simpl. rewrite Hf. simpl. rewrite Ht.
  simpl. eexists. split; [reflexivity|].
  intros a. destruct a as [d|detail|b|text|la lo|]; simpl;
    try (destruct d as [|st msg em|t|r|ad]; simpl;
         try destruct (String.eqb st "success");
         try destruct (String.eqb st "already_verified"));
    try (destruct detail as [dt|]; [destruct (truthy dt)|]);
    simpl; repeat (constructor; auto).
Qed.

(** The first run without a token: the guard goes up and the page
    reports the missing token; nothing is asked. *)
Lemma start_verifyEmail_missing (token : option string) (s : System Env) :
  verificationAttempted (sys_env s) = false ->
  truthy_opt token = false ->
  start (verifyEmail token) s
  = mkSystem (setMessage (Some msg_missing_token)
                (setStatus "error" (setAttempted true (sys_env s))))
             (sys_waiting s) (sys_trace s).
Proof.
  intros Hf Ht. unfold verifyEmail. simpl. rewrite Hf. simpl.
  destruct token as [[|c tok]|]; simpl in *; try discriminate; reflexivity.
Qed.

Lemma step_guarded (p : Page) (e : PageEvent) :
  guarded (sys p) ->
  guarded (sys (step p e)) /\ calls (step p e) = calls p.
Proof.
  intros [Ha Hw]. unfold calls. destruct e as [token| |i a]; unfold step.
  - destruct (bool_decide (deps p = Some token)); cbn [sys].
    + split; [split|]; auto.
    + rewrite start_verifyEmail_guarded by assumption.
      split; [split|]; auto.
  - destruct (deps p) as [token|]; cbn [sys].
    + rewrite start_verifyEmail_guarded by assumption.
      split; [split|]; auto.
    + split; [split|]; auto.
  - cbn [sys]. unfold resolve.
    destruct (sys_waiting (sys p) !! i) as [k|] eqn:Hk.
    + assert (Hset : forall a, settled (k a)).
      { eapply (proj1 (Forall_lookup _ _) Hw); eassumption. }
      destruct (start_settled (k a) (Hset a)
                  (mkSystem (sys_env (sys p)) (delete i (sys_waiting (sys p)))
                            (sys_trace (sys p)
                             ++ [(Answered a, sys_env (sys p))])))
        as (H1 & H2 & H3); [assumption|].
      cbn [sys_waiting sys_trace] in H2, H3.
      rewrite requests_snoc_quiet in H3 by discriminate.
      split; [split|]; auto.
      rewrite H2. now apply Forall_delete.
    + split; [split|]; auto.
Qed.

Lemma steps_guarded (es : list PageEvent) :
  forall p, guarded (sys p) ->
    guarded (sys (steps p es)) /\ calls (steps p es) = calls p.
Proof.
  unfold steps.
  induction es as [|e es IH]; intros p Hg; simpl; [auto|].
  destruct (step_guarded p e Hg) as [Hg' Hc].
  destruct (IH (step p e) Hg') as [Hg'' Hc'].
  split; [assumption | congruence].
Qed.

(** With the guard up and nothing waiting, no event changes the page's
    state or trace. *)
Lemma step_quiescent (p : Page) (e : PageEvent) :
  verificationAttempted (sys_env (sys p)) = true ->
  sys_waiting (sys p) = [] ->
  sys (step p e) = sys p.
Proof.
  intros Ha Hw. destruct e as [token| |i a]; unfold step.
  - destruct (bool_decide (deps p = Some token)); cbn [sys]; [reflexivity|].
    now apply start_verifyEmail_guarded.
  - destruct (deps p); cbn [sys]; [|reflexivity].
    now apply start_verifyEmail_guarded.
  - cbn [sys]. unfold resolve. rewrite Hw. reflexivity.
Qed.

Lemma steps_quiescent (es : list PageEvent) :
  forall p, verificationAttempted (sys_env (sys p)) = true ->
    sys_waiting (sys p) = [] ->
    sys (steps p es) = sys p.
Proof.
  unfold steps.
  induction es as [|e es IH]; intros p Ha Hw; simpl; [reflexivity|].
  pose proof (step_quiescent p e Ha Hw) as E.
  rewrite IH by (rewrite E; assumption). exact E.
Qed.

(** The first event that changes a freshly mounted page is a render. *)
Lemma step_mount (e : PageEvent) :
  step mount e = mount \/ exists token, e = Render token.
Proof.
  destruct e as [token| |i a]; [right; eauto | left | left]; reflexivity.
Qed.

Lemma render_mount_missing (token : option string) :
  truthy_opt token = false ->
  step mount (Render token)
  = mkPage (mkSystem (mkEnv true "error" (Some msg_missing_token) (Some "") 3)
                     [] [])
           (Some token).
Proof.
  intros Ht. unfold step, mount. cbn [deps sys].
  replace (bool_decide (None = Some token)) with false
    by (symmetry; apply bool_decide_eq_false; discriminate).
  now rewrite start_verifyEmail_missing.
Qed.

Lemma render_mount_token (tok : string) :
  truthy tok = true ->
  guarded (sys (step mount (Render (Some tok))))
  /\ calls (step mount (Render (Some tok))) = [(GET, verify_url tok, BNone)].
Proof.
  intros Ht.
  destruct (start_verifyEmail_first tok (mkSystem initial [] []))
    as (k & E & Hk); [reflexivity | assumption|].
  unfold calls, step, mount. cbn [deps sys].
  replace (bool_decide (None = Some (Some tok))) with false
    by (symmetry; apply bool_decide_eq_false; discriminate).
  cbn [sys]. rewrite E.
  split; [|reflexivity]. split; [reflexivity|].
  constructor; [exact Hk | constructor].
Qed.

Lemma calls_from_mount (es : list PageEvent) :
  length (calls (steps mount es)) <= 1.
Proof.
  induction es as [|e es IH]; [simpl; lia|].
  change (steps mount (e :: es)) with (steps (step mount e) es).
  destruct (step_mount e) as [-> | [token ->]]; [exact IH|].
  destruct (truthy_opt token) eqn:Ht.
  - destruct token as [tok|]; [|discriminate].
    destruct (render_mount_token tok Ht) as [Hg Hc].
    destruct (steps_guarded es _ Hg) as [_ ->]. rewrite Hc. simpl. lia.
  - unfold calls. rewrite steps_quiescent;
      rewrite render_mount_missing by assumption; simpl; auto.
Qed.

(** C3.  From a freshly mounted page and for every sequence of renders
    (with whatever token), forced re-runs of the effect and arrivals of
    answers: at most one request is ever issued.  If the token of the
    first render is absent (or empty), no request is issued at all and
    the page reports the missing token; if it is present, the one request
    is the GET to /auth/verify-email for that token. *)
Theorem verify_email_called_at_most_once (es : list PageEvent) :
  length (calls (steps mount es)) <= 1
  /\ (forall token, truthy_opt token = false ->
        let p := steps mount (Render token :: es) in
        calls p = []
        /\ status (sys_env (sys p)) = "error"
        /\ message (sys_env (sys p)) = Some msg_missing_token)
  /\ (forall tok, truthy tok = true ->
        calls (steps mount (Render (Some tok) :: es))
        = [(GET, verify_url tok, BNone)]).
Proof.
  split; [apply calls_from_mount|]. split.
  - intros token Ht.
    change (steps mount (Render token :: es))
      with (steps (step mount (Render token)) es).
    unfold calls. rewrite steps_quiescent;
      rewrite render_mount_missing by assumption; simpl; auto.
  - intros tok Ht.
    change (steps mount (Render (Some tok) :: es))
      with (steps (step mount (Render (Some tok))) es).
    destruct (render_mount_token tok Ht) as [Hg Hc].
    destruct (steps_guarded es _ Hg) as [_ ->]. exact Hc.
Qed.

Lemma verify_email_called_at_most_once_witness :
  let es := [Render (Some "t0k"); RerunEffect; Render (Some "t0k");
             Resolve 0 (HttpOk (DVerify "success" None None)); RerunEffect] in
  length (calls (steps mount es)) <= 1
  /\ (calls (steps mount (Render None :: es)) = []
      /\ status (sys_env (sys (steps mount (Render None :: es)))) = "error"
      /\ message (sys_env (sys (steps mount (Render None :: es))))
         = Some msg_missing_token)
  /\ calls (steps mount (Render (Some "abc") :: es))
     = [(GET, verify_url "abc", BNone)].
Proof.
  intros es.
  destruct (verify_email_called_at_most_once es) as (H1 & H2 & H3).
  split; [exact H1|]. split.
  - apply (H2 None). reflexivity.
  - apply (H3 "abc"). reflexivity.
Defined.

End EmailVerifiedPageFacts.

(** ** Chat.jsx: rename, delete and send *)

Module ChatFacts.

Import JS Eff Chat.

Section HandlerFacts.

Variable JSON_stringify : Thread -> string.
Variable JSON_parse : string -> option Thread.

(** C7.  When a thread is selected, the delete is confirmed and the
    backend call succeeds, [deleteChat] issues the DELETE for that
    thread and leaves no thread selected, an empty message list and no
    last-thread record in [localStorage].  When no thread is selected,
    [renameChat] and [deleteChat] ask nothing of the backend and change
    nothing: they only show the alert "No chat selected". *)
Theorem delete_and_rename_on_selection (s : Env) :
  (forall th d rest,
      thread s = Some th ->
      let o := run deleteChat (Chosen true :: HttpOk d :: rest) s in
      thread (out_env o) = None
      /\ messages (out_env o) = []
      /\ localStorage (out_env o) !! "last-thread" = None
      /\ requests (out_trace o) = [(DELETE, "/threads/" +:+ id th, BNone)])
  /\ (thread s = None ->
      forall answers,
        run deleteChat answers s
        = mkOutcome s [(Emitted (Alert "No chat selected"), s)] (Returned tt)
        /\ run (renameChat JSON_stringify) answers s
           = mkOutcome s [(Emitted (Alert "No chat selected"), s)]
                       (Returned tt)).
Proof.
  split.
  - intros th d rest Hth. unfold deleteChat. simpl. rewrite Hth. simpl.
    rewrite lookup_delete_eq. auto.
  - intros Hth answers. unfold deleteChat, renameChat. simpl.
    rewrite Hth. simpl. auto.
Qed.

(** C8, as the code has it.  In every run of [send] the optimistic
    entries (the text, if any, then the file placeholder, if any) are
    appended before the chat relay call: at the moment POST /chat is
    issued the message list is the previous list followed by them, and if
    that call fails the final list is the same list followed by the inline
    assistant error message (no rollback).  With a thread selected, or
    restorable from the last-thread record, the chat relay call is the
    one request of the run.  With neither, the thread creation call POST
    /threads comes first, while nothing is appended yet: if it fails
    nothing is appended at all; if it succeeds the entries are appended
    and the chat relay call follows. *)
Theorem send_is_optimistic_without_rollback
        (text : string) (file : option File)
        (answers : list Answer) (s : Env) :
  let o := run (send JSON_stringify JSON_parse text file) answers s in
  let shown := (messages s ++ optimistic text file)%list in
  let failed := (shown ++ [Say assistant (Some msg_error_reply)])%list in
  let create := (POST, "/threads", BJson [("title", "New chat")]) in
  (forall e, chat_snapshot (out_trace o) = Some e -> messages e = shown)
  /\ (forall detail,
        chat_answer (out_trace o) = Some (HttpError detail) ->
        messages (out_env o) = failed)
  /\ (forall th,
        thread s = Some th
        \/ (thread s = None
            /\ ChatThreads.saved_thread JSON_parse s = Some th) ->
        requests (out_trace o)
        = [(POST, "/chat", BForm (chat_form th (config s) text file))]
        /\ (exists e, chat_snapshot (out_trace o) = Some e
                      /\ messages e = shown)
        /\ (forall detail rest,
              answers = HttpError detail :: rest ->
              messages (out_env o) = failed
              /\ out_result o = Returned tt))
  /\ (thread s = None ->
      ChatThreads.saved_thread JSON_parse s = None ->
      (exists tr,
          out_trace o
          = (Asked (Http POST "/threads" (BJson [("title", "New chat")])), s)
            :: tr)
      /\ (forall detail rest,
            answers = HttpError detail :: rest ->
            out_env o = s
            /\ chat_snapshot (out_trace o) = None
            /\ out_result o = Raised (EHttp detail))
      /\ (forall th rest,
            answers = HttpOk (DThread th) :: rest ->
            requests (out_trace o)
            = [create;
               (POST, "/chat", BForm (chat_form th (config s) text file))]
            /\ (exists e, chat_snapshot (out_trace o) = Some e
                          /\ messages e = shown)
            /\ (forall detail rest',
                  rest = HttpError detail :: rest' ->
                  messages (out_env o) = failed
                  /\ out_result o = Returned tt))).
Proof.
  cbv zeta.
  unfold send, reuse_last, ensure_thread, optimistic, when,
    ChatThreads.saved_thread.
  split; [|split; [|split]].
  - simpl. intros e H.
    repeat (progress (split_cases; simpl in * )); try discriminate;
      close_case.
  - simpl. intros detail H.
    repeat (progress (split_cases; simpl in * )); try discriminate;
      close_case.
  - intros th Hsel.
    assert (Hres :
      (thread s = Some th)
      \/ (thread s = None
          /\ exists saved, localStorage s !! "last-thread" = Some saved
                           /\ JS.truthy saved = true
                           /\ JSON_parse saved = Some th)).
    { destruct Hsel as [H | [H1 H2]]; [auto|]. right. split; [exact H1|].
      destruct (localStorage s !! "last-thread") as [saved|];
        [|discriminate].
      destruct (JS.truthy saved) eqn:Ht; [|discriminate]. eauto. }
    clear Hsel.
    destruct Hres as [Hth | (Hth & saved & Hls & Ht & Hp)]; simpl;
      rewrite Hth; try rewrite Hls, Ht, Hp; simpl;
      (split; [|split]).
    + repeat (progress (split_cases; simpl in * )); reflexivity.
    + repeat (progress (split_cases; simpl in * ));
        (eexists; split; [reflexivity | close_case]).
    + intros detail rest ->. simpl.
      repeat (progress (split_cases; simpl in * ));
        (split; [close_case | reflexivity]).
    + repeat (progress (split_cases; simpl in * )); reflexivity.
    + repeat (progress (split_cases; simpl in * ));
        (eexists; split; [reflexivity | close_case]).
    + intros detail rest ->. simpl.
      repeat (progress (split_cases; simpl in * ));
        (split; [close_case | reflexivity]).
  - intros Hth Hsaved. simpl. rewrite Hth.
    destruct (localStorage s !! "last-thread") as [saved|];
      [destruct (JS.truthy saved); [rewrite Hsaved|]|]; simpl;
      (split; [destruct answers as [|a0 r0]; simpl; eexists; reflexivity|]);
      (split; [intros detail rest ->; simpl; auto|]);
      intros th rest ->; simpl;
      (split;
       [repeat (progress (split_cases; simpl in * )); reflexivity|]);
      (split;
       [repeat (progress (split_cases; simpl in * ));
        (eexists; split; [reflexivity | close_case])|]);
      intros detail rest' ->; simpl;
      repeat (progress (split_cases; simpl in * ));
      (split; [close_case | reflexivity]).
Qed.

End HandlerFacts.

Lemma delete_and_rename_on_selection_witness :
  (let o := run deleteChat [Chosen true; HttpOk DNone] open_chat in
   thread (out_env o) = None
   /\ messages (out_env o) = []
   /\ localStorage (out_env o) !! "last-thread" = None
   /\ requests (out_trace o) = [(DELETE, "/threads/7", BNone)])
  /\ (run deleteChat [Chosen true; HttpOk DNone] no_chat
      = mkOutcome no_chat [(Emitted (Alert "No chat selected"), no_chat)]
                  (Returned tt)
      /\ run (renameChat encode) [Chosen true; HttpOk DNone] no_chat
         = mkOutcome no_chat [(Emitted (Alert "No chat selected"), no_chat)]
                     (Returned tt)).
Proof.
  split.
  - apply (proj1 (delete_and_rename_on_selection encode open_chat)
                 thread7 DNone []).
    reflexivity.
  - apply (proj2 (delete_and_rename_on_selection encode no_chat)).
    reflexivity.
Defined.

Lemma send_is_optimistic_without_rollback_witness :
  let o := run (send encode decode "hi" None) [HttpError None] open_chat in
  let at_call :=
    setMessages (append (Say user (Some "hi"))) open_chat in
  messages at_call = [Say assistant (Some "hello"); Say user (Some "hi")]
  /\ messages (out_env o)
     = [Say assistant (Some "hello"); Say user (Some "hi");
        Say assistant (Some msg_error_reply)].
Proof.
  split.
  - apply (proj1 (send_is_optimistic_without_rollback
                    encode decode "hi" None [HttpError None] open_chat)).
    reflexivity.
  - apply (proj1 (proj2 (send_is_optimistic_without_rollback
                           encode decode "hi" None [HttpError None]
                           open_chat))
                 None).
    reflexivity.
Defined.

(** C8, as stated, fails: with no thread selected and none recorded,
    [send] first asks the backend to create a thread, at a moment when the
    user's entry is not in the list; when that call fails the run ends and
    the entry is never appended. *)
Lemma send_creation_precedes_optimistic_entry :
  let o := run (send encode decode "hi" None) [HttpError None] no_chat in
  optimistic "hi" None = [Say user (Some "hi")]
  /\ out_trace o
     = [(Asked (Http POST "/threads" (BJson [("title", "New chat")])),
         no_chat);
        (Answered (HttpError None), no_chat)]
  /\ messages no_chat = []
  /\ messages (out_env o) = [].
Proof. repeat split; reflexivity. Qed.


End ChatFacts.

(** ** More on validateEmail and validatePassword *)

Module ValidationFacts.

Import JS JSText JSFacts Signup SignupFacts.
Import SignupEffects (is_special).

Lemma some_char_app (p : ascii -> bool) (a b : string) :
  some_char p (a +:+ b) = some_char p a || some_char p b.
Proof.
  induction a as [|c a IH]; simpl; [reflexivity|].
  rewrite IH. apply orb_assoc.
Qed.

Lemma some_char_split (p : ascii -> bool) (s : string) :
  some_char p s = true <->
  exists pre c post, s = pre +:+ String c post /\ p c = true.
Proof.
  split.
  - induction s as [|c s IH]; simpl; [discriminate|].
    destruct (p c) eqn:Hc; simpl.
    + intros _. exists "", c, s. auto.
    + intros H. destruct (IH H) as (pre & x & post & -> & Hx).
      exists (String c pre), x, post. auto.
  - intros (pre & c & post & -> & Hc).
    rewrite some_char_app. simpl. rewrite Hc. apply orb_true_r.
Qed.

Lemma all_chars_no_char (p q : ascii -> bool) (s : string) :
  (forall c, p c = true -> q c = false) ->
  all_chars p s = true -> some_char q s = false.
Proof.
  intros Hpq. induction s as [|c s IH]; simpl; [reflexivity|].
  intros H. apply andb_true_iff in H as [Hc Hs].
  now rewrite (Hpq _ Hc), IH.
Qed.

(** [/[...]/.test(s)] for a character class: some character of [s] is in
    the class. *)
Lemma test_class (p : ascii -> bool) (s : string) :
  test (Cls p) s = some_char p s.
Proof.
  apply eq_true_iff_eq. unfold test. rewrite matches_lang, some_char_split.
  split.
  - intros H.
    inversion H as [| |? ? pre s1 Hpre H1| | | |]; subst.
    inversion H1 as [| |? ? m post Hm Hpost| | | |]; subst.
    inversion Hm; subst. exists pre, c, post. auto.
  - intros (pre & c & post & -> & Hc).
    assert (Hany : forall t, all_chars (fun _ => true) t = true)
      by (induction t; simpl; auto).
    constructor; [apply lang_star_cls, Hany|].
    change (String c post) with (String c "" +:+ post).
    constructor; [now constructor | apply lang_star_cls, Hany].
Qed.

(** A string [l + "@" + d] matched by [emailRegex] has a domain part [d]
    that is not empty and has no white space and no at sign. *)
Lemma matched_domain_part (l d : string) :
  matches emailRegex (l +:+ "@" +:+ d) = true ->
  d <> "" /\ all_chars notSpaceAt d = true.
Proof.
  intros H. pose proof H as H'. apply emailRegex_shape in H
    as (a & b & c & E & [Hane Ha] & [_ Hb] & [_ Hc]).
  assert (Hd : all_chars notSpaceAt d = true).
  { apply all_chars_count in Ha, Hb, Hc. apply all_chars_count.
    apply (f_equal (count_chars (fun c => negb (notSpaceAt c)))) in E.
    change (a +:+ "@" +:+ b +:+ "." +:+ c)
      with (a +:+ String "@" (b +:+ String "." c)) in E.
    change (l +:+ "@" +:+ d) with (l +:+ String "@" d) in E.
    rewrite !count_chars_app in E. simpl in E.
    rewrite count_chars_app in E. simpl in E.
    change (negb (notSpaceAt "@")) with true in E.
    change (negb (notSpaceAt ".")) with false in E.
    lia. }
  split; [|exact Hd].
  intros ->. apply matched_local_part in H' as [_ Hl].
  (* both sides split at their only at sign *)
  assert (Hsplit1 : split "@" (l +:+ String "@" "") = [l; ""]).
  { rewrite split_at_sep; [reflexivity|].
    eapply all_chars_weaken; [apply notSpaceAt_not_at | exact Hl]. }
  assert (Hsplit2 : split "@" (a +:+ String "@" (b +:+ "." +:+ c))
                    = [a; b +:+ "." +:+ c]).
  { rewrite split_at_sep
      by (eapply all_chars_weaken; [apply notSpaceAt_not_at | exact Ha]).
    rewrite split_no_sep; [reflexivity|].
    eapply all_chars_weaken; [apply notSpaceAt_not_at|].
    rewrite all_chars_app, Hb. simpl. now rewrite Hc. }
  change (l +:+ "@" +:+ "") with (l +:+ String "@" "") in E.
  change (a +:+ "@" +:+ b +:+ "." +:+ c)
    with (a +:+ String "@" (b +:+ "." +:+ c)) in E.
  rewrite E in Hsplit1. rewrite Hsplit1 in Hsplit2.
  injection Hsplit2 as _ Hbc. destruct b; discriminate.
Qed.

(** The domain of a matched [l + "@" + d] is [d] in lower case. *)
Lemma domain_of_parts (l d : string) :
  matches emailRegex (l +:+ "@" +:+ d) = true ->
  domain_of (l +:+ "@" +:+ d) = Some (toLowerCase d)
  /\ truthy (toLowerCase d) = true
  /\ includes (toLowerCase d) "." = true.
Proof.
  intros H.
  destruct (matched_local_part l d H) as [_ Hl].
  destruct (matched_domain_part l d H) as [Hdne Hd].
  assert (E : domain_of (l +:+ "@" +:+ d) = Some (toLowerCase d)).
  { unfold domain_of.
    change (l +:+ "@" +:+ d) with (l +:+ String "@" d).
    rewrite split_at_sep
      by (eapply all_chars_weaken; [apply notSpaceAt_not_at | exact Hl]).
    rewrite split_no_sep
      by (eapply all_chars_weaken; [apply notSpaceAt_not_at | exact Hd]).
    reflexivity. }
  split; [exact E|].
  destruct (domain_of_matched _ H) as (d' & E' & Ht & Hdot).
  rewrite E in E'. injection E' as <-. auto.
Qed.

(** X1.  For a well-formed address [l + "@" + d] the verdict and the
    errors are decided by the lower-cased domain alone: the disposable
    message is reported exactly when the lower-cased [d] is in the
    disposable set, then the test-domain message exactly when it contains
    "test", "example" or "temp"; the address is valid exactly when neither
    holds.  (So the block list is insensitive to the case of the domain,
    and none of the other three messages can appear.) *)
Theorem validateEmail_wellformed (l d : string) :
  matches emailRegex (l +:+ "@" +:+ d) = true ->
  let dom := toLowerCase d in
  let disposable := has DISPOSABLE_DOMAINS dom in
  let testing := includes dom "test" || includes dom "example"
                 || includes dom "temp" in
  validateEmail (l +:+ "@" +:+ d)
  = mkEmailResult (negb disposable && negb testing)
      ((if disposable then [msg_email_disposable] else [])
       ++ (if testing then [msg_email_test] else []))%list.
Proof.
  intros H. cbv zeta. destruct (domain_of_parts l d H) as (E & Ht & Hdot).
  unfold validateEmail.
  replace (truthy (l +:+ "@" +:+ d)) with true
    by (destruct l; reflexivity).
  rewrite H, E, Ht, Hdot. change (negb true) with false. cbv iota zeta.
  destruct (has DISPOSABLE_DOMAINS (toLowerCase d));
    destruct (includes (toLowerCase d) "test" || includes (toLowerCase d) "example"
              || includes (toLowerCase d) "temp"); reflexivity.
Qed.

Lemma validateEmail_wellformed_witness :
  validateEmail ("bob" +:+ "@" +:+ "YopMail.COM")
  = mkEmailResult false [msg_email_disposable]
  /\ validateEmail ("bob" +:+ "@" +:+ "Contest.org")
     = mkEmailResult false [msg_email_test]
  /\ validateEmail ("bob" +:+ "@" +:+ "Gmail.com") = mkEmailResult true [].
Proof.
  split; [|split].
  - apply (validateEmail_wellformed "bob" "YopMail.COM"). reflexivity.
  - apply (validateEmail_wellformed "bob" "Contest.org"). reflexivity.
  - apply (validateEmail_wellformed "bob" "Gmail.com"). reflexivity.
Defined.

(** The shapes of a [validateEmail] result, with its verdict. *)
Lemma validateEmail_shape (email : string) :
  validateEmail email = mkEmailResult false [msg_email_required]
  \/ validateEmail email = mkEmailResult false [msg_email_format]
  \/ exists b1 b2,
       validateEmail email
       = mkEmailResult (negb b1 && negb b2)
           ((if b1 then [msg_email_disposable] else [])
            ++ (if b2 then [msg_email_test] else []))%list.
Proof.
  unfold validateEmail.
  destruct (truthy email); [|left; reflexivity].
  change (negb true) with false. cbv iota.
  destruct (matches emailRegex email) eqn:Hm; [|right; left; reflexivity].
  change (negb true) with false. cbv iota.
  right; right.
  destruct (domain_of_matched email Hm) as (d & Hd & Ht & Hdot).
  rewrite Hd, Ht, Hdot. change (negb true) with false. cbv iota zeta.
  exists (has DISPOSABLE_DOMAINS d),
         (includes d "test" || includes d "example" || includes d "temp").
  destruct (has DISPOSABLE_DOMAINS d);
    destruct (includes d "test" || includes d "example" || includes d "temp");
    reflexivity.
Qed.

(** X2.  Every [validateEmail] result is coherent: the verdict is true
    exactly when the error list is empty, there are at most two errors,
    and neither "Invalid email domain" (the branch for a missing domain)
    nor "Email domain is invalid" is ever among them. *)
Theorem validateEmail_result_coherent (email : string) :
  let r := validateEmail email in
  isValid r = match errors r with [] => true | _ => false end
  /\ length (errors r) <= 2
  /\ ~ In msg_email_domain (errors r).
Proof.
  destruct (validateEmail_shape email) as [-> | [-> | (b1 & b2 & ->)]]; simpl.
  - split; [reflexivity|]. split; [lia|]. intros [H|[]]. discriminate.
  - split; [reflexivity|]. split; [lia|]. intros [H|[]]. discriminate.
  - destruct b1, b2; simpl; (split; [reflexivity|]); (split; [lia|]);
      intuition discriminate.
Qed.

(** X3.  A non-empty address with no at sign, or with no dot, or with a
    white-space character anywhere, gets the format error and nothing
    else: no later check is evaluated. *)
Theorem validateEmail_format_error_only (email : string) :
  email <> "" ->
  some_char (Ascii.eqb "@") email = false
  \/ some_char (Ascii.eqb ".") email = false
  \/ some_char is_space email = true ->
  validateEmail email = mkEmailResult false [msg_email_format].
Proof.
  intros Hne Hbad. unfold validateEmail.
  replace (truthy email) with true
    by (destruct email; [congruence | reflexivity]).
  destruct (matches emailRegex email) eqn:Hm; [|reflexivity].
  exfalso. apply emailRegex_shape in Hm
    as (a & b & c & -> & [_ Ha] & [_ Hb] & [_ Hc]).
  change (a +:+ "@" +:+ b +:+ "." +:+ c)
    with (a +:+ String "@" (b +:+ String "." c)) in Hbad.
  rewrite !some_char_app in Hbad. simpl in Hbad.
  rewrite !some_char_app in Hbad. simpl in Hbad.
  assert (Hsp : forall t, all_chars notSpaceAt t = true ->
                          some_char is_space t = false).
  { intros t. apply all_chars_no_char. intros x Hx. unfold notSpaceAt in Hx.
    apply negb_true_iff, orb_false_iff in Hx. tauto. }
  rewrite (Hsp a Ha), (Hsp b Hb), (Hsp c Hc) in Hbad.
  rewrite !orb_true_r in Hbad. simpl in Hbad.
  destruct Hbad as [H|[H|H]]; discriminate.
Qed.

Lemma validateEmail_format_error_only_witness :
  validateEmail "bob.gmail.com" = mkEmailResult false [msg_email_format]
  /\ validateEmail "bob@gmail" = mkEmailResult false [msg_email_format]
  /\ validateEmail "bob @gmail.com" = mkEmailResult false [msg_email_format].
Proof.
  split; [|split].
  - apply (validateEmail_format_error_only "bob.gmail.com");
      [discriminate | left; reflexivity].
  - apply (validateEmail_format_error_only "bob@gmail");
      [discriminate | right; left; reflexivity].
  - apply (validateEmail_format_error_only "bob @gmail.com");
      [discriminate | right; right; reflexivity].
Defined.

(** X4.  What [validatePassword] accepts, read on the characters of the
    password: it is valid exactly when it has at least 8 characters,
    contains a character of A-Z, one of a-z, one of 0-9 and one of the
    special characters, is not a common password once lower-cased, holds
    none of the listed sequences once lower-cased, and has no character
    three times in a row.  (The empty password is not valid.) *)
Theorem validatePassword_accepts (password : string) :
  pw_isValid (validatePassword password)
  = Nat.leb 8 (String.length password)
    && some_char is_upper password
    && some_char is_lower password
    && some_char is_digit password
    && some_char is_special password
    && negb (has COMMON_PASSWORDS (toLowerCase password))
    && negb (existsb (fun seq => includes (toLowerCase password) seq)
                     sequences)
    && negb (has_triple password).
Proof.
  unfold validatePassword. destruct password as [|c0 p0]; [reflexivity|].
  set (p := String c0 p0). change (negb (truthy p)) with false. cbv iota.
  unfold pw_isValid, run_checks. rewrite no_error_iff_all_passed.
  unfold all_passed, values, chk_length, chk_uppercase, chk_lowercase,
    chk_number, chk_special, chk_common, chk_sequential, chk_repeated,
    decide_check, passed, forallb, OneOf.
  rewrite !test_class. fold is_special.
  destruct (Nat.leb 8 (String.length p)), (some_char is_upper p),
    (some_char is_lower p), (some_char is_digit p), (some_char is_special p),
    (negb (has COMMON_PASSWORDS (toLowerCase p))),
    (negb (existsb (fun seq => includes (toLowerCase p) seq) sequences)),
    (negb (has_triple p)); reflexivity.
Qed.

(** Three equal characters in a row, the first not a line terminator. *)
Lemma has_triple_spec (s : string) :
  has_triple s = true <->
  exists pre c post,
    s = pre +:+ String c (String c (String c post))
    /\ is_line_terminator c = false.
Proof.
  split.
  - induction s as [|a s IH]; [discriminate|].
    destruct s as [|b [|c t]]; try discriminate.
    change (has_triple (String a (String b (String c t))))
      with ((negb (is_line_terminator a) && Ascii.eqb a b && Ascii.eqb b c)
            || has_triple (String b (String c t))).
    intros H. apply orb_true_iff in H as [H|H].
    + apply andb_true_iff in H as [H Hbc].
      apply andb_true_iff in H as [Hlt Hab].
      apply Ascii.eqb_eq in Hab, Hbc. subst.
      apply negb_true_iff in Hlt. exists "", c, t. auto.
    + destruct (IH H) as (pre & x & post & E & Hx).
      exists (String a pre), x, post. simpl. now rewrite E.
  - intros (pre & c & post & -> & Hc).
    induction pre as [|a pre IH].
    + simpl. rewrite Hc, !Ascii.eqb_refl. reflexivity.
    + change (String a pre +:+ String c (String c (String c post)))
        with (String a (pre +:+ String c (String c (String c post)))).
      destruct (pre +:+ String c (String c (String c post)))
        as [|b [|d t]] eqn:E; try discriminate IH.
      change (has_triple (String a (String b (String d t))))
        with ((negb (is_line_terminator a) && Ascii.eqb a b && Ascii.eqb b d)
              || has_triple (String b (String d t))).
      rewrite IH. apply orb_true_r.
Qed.

(** X5.  The repeated-characters check of [validatePassword] fails
    exactly when some character other than a line terminator (LF, CR)
    occurs three times in a row somewhere in the password; a run of line
    terminators is not reported. *)
Theorem validatePassword_repeated_check (password : string) :
  passed (chk_repeated (pw_checks (validatePassword password))) = false
  <-> exists pre c post,
        password = pre +:+ String c (String c (String c post))
        /\ is_line_terminator c = false.
Proof.
  rewrite <- has_triple_spec. unfold validatePassword.
  destruct password as [|c0 p0].
  - simpl. split; discriminate.
  - set (p := String c0 p0). change (negb (truthy p)) with false. cbv iota.
    unfold pw_checks, run_checks, chk_repeated, decide_check, passed.
    destruct (has_triple p); simpl; split; congruence.
Qed.

Lemma validatePassword_repeated_check_witness :
  passed (chk_repeated (pw_checks (validatePassword "Passs0rd!"))) = false.
Proof.
  apply (proj2 (validatePassword_repeated_check "Passs0rd!")).
  exists "Pa", "s"%char, "0rd!". split; reflexivity.
Defined.

(** With the eight verdicts abstracted: a check carries an error message
    exactly when it failed, and the error list lists the messages of the
    failed checks in the order of the structure. *)
Lemma errors_follow_checks (c : Checks) (b1 b2 b3 b4 b5 b6 b7 b8 : bool) :
  error (chk_length c) = "" -> error (chk_uppercase c) = "" ->
  error (chk_lowercase c) = "" -> error (chk_number c) = "" ->
  error (chk_special c) = "" -> error (chk_common c) = "" ->
  error (chk_sequential c) = "" -> error (chk_repeated c) = "" ->
  let checks :=
    {| chk_length := decide_check (chk_length c) b1 err_length;
       chk_uppercase := decide_check (chk_uppercase c) b2 err_uppercase;
       chk_lowercase := decide_check (chk_lowercase c) b3 err_lowercase;
       chk_number := decide_check (chk_number c) b4 err_number;
       chk_special := decide_check (chk_special c) b5 err_special;
       chk_common := decide_check (chk_common c) b6 err_common;
       chk_sequential := decide_check (chk_sequential c) b7 err_sequential;
       chk_repeated := decide_check (chk_repeated c) b8 err_repeated |} in
  Forall (fun k => passed k = negb (truthy (error k))) (values checks)
  /\ collect_errors checks
     = map error (filter (fun k => negb (passed k)) (values checks))
  /\ length (collect_errors checks) = length (failed checks).
Proof.
  intros E1 E2 E3 E4 E5 E6 E7 E8. cbv zeta.
  unfold collect_errors, failed, values, decide_check; simpl.
  rewrite E1, E2, E3, E4, E5, E6, E7, E8.
  destruct b1, b2, b3, b4, b5, b6, b7, b8; simpl;
    (split; [repeat constructor | split; reflexivity]).
Qed.

(** X6.  For a non-empty password the checklist and the error list of
    [validatePassword] agree: a check of the returned structure carries an
    error message exactly when it did not pass, the errors are the
    messages of the failed checks in the order of the structure, and so
    there are as many errors as failed checks.  (For the empty password
    the one error "Password is required" belongs to no check.) *)
Theorem validatePassword_errors_follow_checks (password : string) :
  password <> "" ->
  let r := validatePassword password in
  Forall (fun k => passed k = negb (truthy (error k))) (values (pw_checks r))
  /\ pw_errors r
     = map error (filter (fun k => negb (passed k)) (values (pw_checks r)))
  /\ length (pw_errors r) = length (failed (pw_checks r)).
Proof.
  intros Hne. unfold validatePassword.
  destruct password as [|c0 p0]; [congruence|].
  set (p := String c0 p0). change (negb (truthy p)) with false. cbv iota zeta.
  unfold pw_checks, pw_errors, run_checks.
  apply errors_follow_checks; reflexivity.
Qed.

Lemma validatePassword_errors_follow_checks_witness :
  let r := validatePassword "abc12345" in
  Forall (fun k => passed k = negb (truthy (error k))) (values (pw_checks r))
  /\ pw_errors r
     = map error (filter (fun k => negb (passed k)) (values (pw_checks r)))
  /\ length (pw_errors r) = length (failed (pw_checks r)).
Proof.
  apply (validatePassword_errors_follow_checks "abc12345"). discriminate.
Defined.

End ValidationFacts.

(** ** trim, MessageInput.jsx and ProjectModal.jsx *)

Module InputFacts.

Import JS JSText JSFacts.

Lemma trimStart_spec (s : string) :
  exists pre, s = pre +:+ trimStart s
              /\ all_chars is_space pre = true
              /\ forall c, first_char (trimStart s) = Some c ->
                           is_space c = false.
Proof.
  induction s as [|a s (pre & E & Hpre & Hfirst)]; simpl.
  - exists "". split; [reflexivity|]. split; [reflexivity | discriminate].
  - destruct (is_space a) eqn:Ha.
    + exists (String a pre). simpl. rewrite Ha, Hpre, <- E. auto.
    + exists "". simpl. split; [reflexivity|]. split; [reflexivity|].
      intros c [= <-]. exact Ha.
Qed.

Lemma trimEnd_spec (s : string) :
  exists post, s = trimEnd s +:+ post
               /\ all_chars is_space post = true
               /\ (forall c, last_char (trimEnd s) = Some c ->
                             is_space c = false)
               /\ (trimEnd s <> "" -> first_char (trimEnd s) = first_char s).
Proof.
  induction s as [|a s (post & E & Hpost & Hlast & Hfirst)]; simpl.
  - exists "". repeat split; try reflexivity; discriminate.
  - destruct (trimEnd s) as [|d r] eqn:Et.
    + simpl in E. subst post. destruct (is_space a) eqn:Ha.
      * exists (String a s). simpl. rewrite Ha, Hpost.
        repeat split; try reflexivity; try discriminate. congruence.
      * exists s. simpl. repeat split; try reflexivity; try assumption.
        intros c [= <-]. exact Ha.
    + exists post. rewrite E at 1. simpl.
      repeat split; try reflexivity; try assumption.
Qed.

(** The contract of [trim]: the trimmed text sits in the input between
    two runs of white space, and neither starts nor ends with white
    space. *)
Lemma trim_spec (s : string) :
  (exists pre post, s = pre +:+ trim s +:+ post
                    /\ all_chars is_space pre = true
                    /\ all_chars is_space post = true)
  /\ (forall c, first_char (trim s) = Some c -> is_space c = false)
  /\ (forall c, last_char (trim s) = Some c -> is_space c = false).
Proof.
  unfold trim.
  destruct (trimStart_spec s) as (pre & E & Hpre & Hfirst).
  destruct (trimEnd_spec (trimStart s)) as (post & E' & Hpost & Hlast & Hf).
  split; [|split].
  - exists pre, post. rewrite <- E', <- E. auto.
  - intros c Hc. apply Hfirst. rewrite <- Hf; [exact Hc|].
    intros Hn. rewrite Hn in Hc. discriminate.
  - exact Hlast.
Qed.

Lemma trim_blank (s : string) :
  trim s = "" <-> all_chars is_space s = true.
Proof.
  destruct (trim_spec s) as ((pre & post & E & Hpre & Hpost) & Hfirst & _).
  split.
  - intros Ht. rewrite Ht in E. rewrite E. simpl.
    now rewrite all_chars_app, Hpre, Hpost.
  - intros Hall. destruct (trim s) as [|c t] eqn:Et; [reflexivity|].
    exfalso. rewrite E, all_chars_app in Hall. simpl in Hall.
    rewrite (Hfirst c eq_refl) in Hall. simpl in Hall.
    rewrite andb_false_r in Hall. discriminate.
Qed.

(** X7.  [send] of the message input hands nothing on, and leaves the
    input as typed, exactly when the text is blank (white space only) and
    no file is attached.  Otherwise it clears the input and hands on the
    attached file and the trimmed text: the typed text without the white
    space around it, neither starting nor ending with white space; and
    what it hands on always gives [Chat.send] at least one optimistic
    entry to show. *)
Theorem messageInput_send (s : MessageInput.State) :
  match MessageInput.send s with
  | (s', None) =>
      s' = s
      /\ all_chars is_space (MessageInput.value s) = true
      /\ MessageInput.attachedFile s = None
  | (s', Some (text, file)) =>
      s' = MessageInput.mkState "" None
      /\ file = MessageInput.attachedFile s
      /\ (exists pre post,
             MessageInput.value s = pre +:+ text +:+ post
             /\ all_chars is_space pre = true
             /\ all_chars is_space post = true)
      /\ (forall c, first_char text = Some c -> is_space c = false)
      /\ (forall c, last_char text = Some c -> is_space c = false)
      /\ (all_chars is_space (MessageInput.value s) = false
          \/ MessageInput.attachedFile s <> None)
      /\ Chat.optimistic text file <> []
  end.
Proof.
  unfold MessageInput.send.
  destruct (trim_spec (MessageInput.value s)) as (Hmid & Hfirst & Hlast).
  pose proof (trim_blank (MessageInput.value s)) as Hblank.
  assert (Hnb : forall c t, trim (MessageInput.value s) = String c t ->
                  all_chars is_space (MessageInput.value s) = false).
  { intros c t Et.
    destruct (all_chars is_space (MessageInput.value s)); [|reflexivity].
    destruct Hblank as [_ Hb]. rewrite Hb in Et by reflexivity.
    discriminate. }
  destruct (trim (MessageInput.value s)) as [|c t] eqn:Et;
    destruct (MessageInput.attachedFile s) as [f|] eqn:Ef; simpl.
  - split; [reflexivity|]. split; [reflexivity|]. split; [exact Hmid|].
    split; [exact Hfirst|]. split; [exact Hlast|].
    split; [right; discriminate | discriminate].
  - split; [reflexivity|]. split; [|reflexivity]. now apply Hblank.
  - split; [reflexivity|]. split; [reflexivity|]. split; [exact Hmid|].
    split; [exact Hfirst|]. split; [exact Hlast|].
    split; [left; eapply Hnb; reflexivity | discriminate].
  - split; [reflexivity|]. split; [reflexivity|]. split; [exact Hmid|].
    split; [exact Hfirst|]. split; [exact Hlast|].
    split; [left; eapply Hnb; reflexivity | discriminate].
Qed.

(** X8.  [handleSave] of the project form refuses, with an alert, exactly
    the names that are blank; any other name is saved trimmed, so a saved
    name is never empty and neither starts nor ends with white space. *)
Theorem projectModal_handleSave (name description : string) :
  match ProjectModal.handleSave name description with
  | ProjectModal.Refused msg =>
      msg = "Project name is required"
      /\ all_chars is_space name = true
  | ProjectModal.Saved n d =>
      n = trim name /\ d = trim description
      /\ n <> ""
      /\ all_chars is_space name = false
      /\ (forall c, first_char n = Some c -> is_space c = false)
      /\ (forall c, last_char n = Some c -> is_space c = false)
  end.
Proof.
  unfold ProjectModal.handleSave.
  destruct (trim_spec name) as (_ & Hfirst & Hlast).
  pose proof (trim_blank name) as Hblank.
  destruct (trim name) as [|c t] eqn:Et; simpl.
  - split; [reflexivity|]. now apply Hblank.
  - split; [reflexivity|]. split; [reflexivity|]. split; [discriminate|].
    split; [|split; [exact Hfirst | exact Hlast]].
    destruct (all_chars is_space name); [|reflexivity].
    destruct Hblank as [_ Hb]. discriminate (Hb eq_refl).
Qed.

End InputFacts.

(** ** Signup.jsx: what submit and requestLocation leave behind *)

Module SignupFlowFacts.

Import JS JSFacts Eff SignupForm SignupEffects.

Local Opaque Signup.validateEmail Signup.validatePassword.

Lemma invalid_guard (s : Env) :
  Signup.isValid (Signup.validateEmail (email s)) = true ->
  Signup.pw_isValid (Signup.validatePassword (password s)) = true ->
  negb (Signup.isValid (Signup.validateEmail (email s)))
  || negb (Signup.pw_isValid (Signup.validatePassword (password s))) = false.
Proof. intros -> ->. reflexivity. Qed.

(** X9.  A valid form whose signup call succeeds: [submit] returns with
    [success] set, [loading] back to false and no error; the token is
    gone from both [localStorage] and [sessionStorage]; and the last
    output of the run schedules the move to /verify-email, carrying the
    email, after 1500 ms. *)
Theorem submit_success (s : Env) (d : Data) (rest : list Answer) :
  Signup.isValid (Signup.validateEmail (email s)) = true ->
  Signup.pw_isValid (Signup.validatePassword (password s)) = true ->
  let o := run submit (HttpOk d :: rest) s in
  out_result o = Returned tt
  /\ success (out_env o) = true
  /\ loading (out_env o) = false
  /\ error (out_env o) = None
  /\ localStorage (out_env o) !! "token" = None
  /\ sessionStorage (out_env o) !! "token" = None
  /\ last (map fst (out_trace o))
     = Some (Emitted (NavigateAfter 1500 "/verify-email" (email s))).
Proof.
  intros Hv Hp. unfold submit. simpl. rewrite (invalid_guard s Hv Hp). simpl.
  rewrite !lookup_delete_eq. auto 10.
Qed.

Lemma submit_success_witness :
  let s := mkEnv "bob@gmail.com" "Passw0rd!" "" "" None "" None false false
                 None None (false, false)
                 {[ "token" := "old" ]} {[ "token" := "older" ]}
                 true "Europe/Paris" in
  let o := run submit [HttpOk DNone] s in
  out_result o = Returned tt
  /\ success (out_env o) = true
  /\ loading (out_env o) = false
  /\ error (out_env o) = None
  /\ localStorage (out_env o) !! "token" = None
  /\ sessionStorage (out_env o) !! "token" = None
  /\ last (map fst (out_trace o))
     = Some (Emitted (NavigateAfter 1500 "/verify-email" "bob@gmail.com")).
Proof.
  intros s.
  apply (submit_success s DNone []); vm_compute; reflexivity.
Defined.

(** X10.  A valid form whose signup call fails: [submit] swallows the
    failure and returns; the error shown is the server's [detail], or
    "Signup failed. Please try again." when there is none (or it is
    empty); [loading] is back to false; [success] and both stores are as
    they were, and no navigation is scheduled. *)
Theorem submit_failure (s : Env) (detail : option string)
        (rest : list Answer) :
  Signup.isValid (Signup.validateEmail (email s)) = true ->
  Signup.pw_isValid (Signup.validatePassword (password s)) = true ->
  let o := run submit (HttpError detail :: rest) s in
  out_result o = Returned tt
  /\ error (out_env o)
     = Some (or_else detail "Signup failed. Please try again.")
  /\ loading (out_env o) = false
  /\ success (out_env o) = success s
  /\ localStorage (out_env o) = localStorage s
  /\ sessionStorage (out_env o) = sessionStorage s
  /\ (forall ms path em,
         ~ In (Emitted (NavigateAfter ms path em)) (map fst (out_trace o))).
Proof.
  intros Hv Hp. unfold submit. simpl. rewrite (invalid_guard s Hv Hp). simpl.
  repeat split; auto.
  intros ms path em [H|[H|[H|[]]]]; discriminate.
Qed.

Lemma submit_failure_witness :
  let s := form "bob@gmail.com" "Passw0rd!" in
  error (out_env (run submit [HttpError (Some "Email already registered")] s))
  = Some "Email already registered"
  /\ error (out_env (run submit [HttpError None] s))
     = Some "Signup failed. Please try again.".
Proof.
  intros s. split.
  - apply (submit_failure s (Some "Email already registered") []);
      vm_compute; reflexivity.
  - apply (submit_failure s None []); vm_compute; reflexivity.
Defined.

(** X11.  Whatever the form holds and whatever the backend answers,
    [submit] never throws; it marks both fields touched, stores the two
    fresh validation results and leaves the fields themselves alone.  It
    is pending only for a valid form whose call has no answer yet, and
    then [loading] is true. *)
Theorem submit_always (s : Env) (answers : list Answer) :
  let o := run submit answers s in
  (forall e, out_result o <> Raised e)
  /\ touched (out_env o) = (true, true)
  /\ emailValidation (out_env o) = Some (Signup.validateEmail (email s))
  /\ passwordValidation (out_env o)
     = Some (Signup.validatePassword (password s))
  /\ email (out_env o) = email s
  /\ password (out_env o) = password s
  /\ (out_result o = Pending ->
      answers = []
      /\ Signup.isValid (Signup.validateEmail (email s)) = true
      /\ Signup.pw_isValid (Signup.validatePassword (password s)) = true
      /\ loading (out_env o) = true).
Proof.
  unfold submit. simpl.
  destruct (Signup.isValid (Signup.validateEmail (email s)));
    destruct (Signup.pw_isValid (Signup.validatePassword (password s)));
    simpl; try (repeat split; auto; discriminate).
  destruct answers as [|a rest]; simpl.
  - repeat split; auto; discriminate.
  - destruct a; simpl; repeat split; auto; discriminate.
Qed.

Lemma submit_always_witness :
  let o := run submit [] (form "bob@gmail.com" "Passw0rd!") in
  out_result o = Pending /\ loading (out_env o) = true.
Proof.
  intros o. split; [reflexivity|].
  apply (submit_always (form "bob@gmail.com" "Passw0rd!") []). reflexivity.
Defined.

(** X12.  The signup payload: email and password come first; [name] and
    [occupation] are sent exactly when they are not empty; the seven
    location fields are sent together, exactly when a location is known;
    and no key occurs twice. *)
Theorem payload_fields (s : Env) :
  (exists more, payload s
                = ("email", email s) :: ("password", password s) :: more)
  /\ NoDup (map fst (payload s))
  /\ (In "name" (map fst (payload s)) <-> name s <> "")
  /\ (In "occupation" (map fst (payload s)) <-> occupation s <> "")
  /\ (forall key,
         In key ["location_city"; "location_state"; "location_country";
                 "location_latitude"; "location_longitude";
                 "location_timezone"; "location_formatted"] ->
         (In key (map fst (payload s)) <-> location s <> None))
  /\ length (payload s)
     = 2 + (if truthy (name s) then 1 else 0)
         + (if truthy (occupation s) then 1 else 0)
         + (match location s with Some _ => 7 | None => 0 end).
Proof.
  unfold payload, optional_field, location_fields.
  split; [eexists; reflexivity|].
  destruct (name s) as [|? ?], (occupation s) as [|? ?],
           (location s) as [loc|]; simpl;
    (split; [apply (bool_decide_unpack _); vm_compute; reflexivity|]);
    (split; [split; [intros H; try discriminate;
                      repeat (destruct H as [H|H]; try discriminate);
                      contradiction
                    | intros H; auto 12; congruence]|]);
    (split; [split; [intros H; try discriminate;
                      repeat (destruct H as [H|H]; try discriminate);
                      contradiction
                    | intros H; auto 12; congruence]|]);
    (split; [|reflexivity]);
    intros key Hk; repeat (destruct Hk as [<-|Hk]; [|]); try contradiction;
    (split; [intros H; try discriminate;
             repeat (destruct H as [H|H]; try discriminate); contradiction
            | intros H; auto 14; congruence]).
Qed.

Lemma payload_fields_witness :
  In "name" (map fst (payload
     (mkEnv "bob@gmail.com" "Passw0rd!" "Bob" "" None "" None false false
            None None (false, false) ∅ ∅ true "Europe/Paris"))).
Proof.
  apply (proj1 (proj2 (proj2 (payload_fields _)))). discriminate.
Defined.



(** X14.  The real-time email validation effect stores the verdict of the
    current text once the field is touched, but skips an empty text: after
    the field is emptied, the verdict held in the state is still that of
    the previous text. *)
Theorem emailEffect_keeps_stale_verdict (s : Env) (answers : list Answer) :
  fst (touched s) = true ->
  email s <> "" ->
  let s1 := out_env (run emailEffect answers s) in
  let s2 := out_env (run emailEffect answers (setEmail "" s1)) in
  emailValidation s1 = Some (Signup.validateEmail (email s))
  /\ email s2 = ""
  /\ emailValidation s2 = Some (Signup.validateEmail (email s)).
Proof.
  intros Ht Hne. unfold emailEffect. simpl. rewrite Ht.
  destruct (email s) as [|c e] eqn:Ee; [congruence|]. simpl.
  rewrite Ht. simpl. auto.
Qed.

Lemma emailEffect_keeps_stale_verdict_witness :
  let s := mkEnv "bob@gmail.com" "" "" "" None "" None false false
                 None None (true, false) ∅ ∅ true "Europe/Paris" in
  let s2 := out_env (run emailEffect []
                       (setEmail "" (out_env (run emailEffect [] s)))) in
  email s2 = ""
  /\ emailValidation s2 = Some (Signup.mkEmailResult true []).
Proof.
  intros s.
  destruct (emailEffect_keeps_stale_verdict s []) as (_ & H2 & H3);
    [reflexivity | discriminate |].
  split; [exact H2|]. rewrite H3. vm_compute. reflexivity.
Defined.

End SignupFlowFacts.

(** ** api.js and App.jsx *)

Module SessionFacts.

Import JS Eff Api.

Lemma setAuth_cases (t : option string) (st : ApiState) :
  (exists tok, truthy tok = true
     /\ setAuth t st
        = {| headers := <["Authorization" := "Bearer " +:+ tok]> (headers st);
             localStorage := <["token" := tok]> (localStorage st) |}
     /\ t = Some tok)
  \/ (truthy_opt t = false
      /\ setAuth t st
         = {| headers := delete "Authorization" (headers st);
              localStorage := delete "token" (localStorage st) |}).
Proof.
  destruct t as [[|c tok]|]; simpl; [right | left | right]; auto.
  exists (String c tok). auto.
Qed.

(** X15.  Calls of [setAuth] do not accumulate: the last call decides both
    stores, whatever was set before (so repeating a call changes nothing),
    and every other header and every other stored key is left alone. *)
Theorem setAuth_last_call_wins (t1 t2 : option string) (st : ApiState) :
  setAuth t2 (setAuth t1 st) = setAuth t2 st
  /\ (forall h, h <> "Authorization" ->
        headers (setAuth t2 st) !! h = headers st !! h)
  /\ (forall k, k <> "token" ->
        localStorage (setAuth t2 st) !! k = localStorage st !! k).
Proof.
  split; [|split].
  - destruct (setAuth_cases t1 st) as [(k1 & _ & -> & _) | [_ ->]];
      destruct (setAuth_cases t2 st) as [(k2 & Hk2 & -> & ->) | [Hf ->]];
      simpl; try rewrite Hk2;
      try (destruct t2 as [[|? ?]|]; try discriminate Hf; simpl);
      f_equal;
      first [apply insert_insert_eq | apply delete_insert_eq
            | apply insert_delete_eq | apply delete_delete_eq
            | apply delete_idemp ].
  - intros h Hh.
    destruct (setAuth_cases t2 st) as [(k2 & _ & -> & _) | [_ ->]]; simpl;
      [apply lookup_insert_ne | apply lookup_delete_ne]; congruence.
  - intros k Hk.
    destruct (setAuth_cases t2 st) as [(k2 & _ & -> & _) | [_ ->]]; simpl;
      [apply lookup_insert_ne | apply lookup_delete_ne]; congruence.
Qed.

Lemma setAuth_last_call_wins_witness :
  let st := mkApiState {[ "Accept" := "application/json" ]} ∅ in
  headers (setAuth (Some "abc") st) !! "Accept" = Some "application/json".
Proof.
  intros st.
  rewrite (proj1 (proj2 (setAuth_last_call_wins None (Some "abc") st)) "Accept");
    [reflexivity | discriminate].
Defined.

(** X16.  A page reload reproduces the session: loading api.js on the
    [localStorage] that [setAuth t] left, with fresh default headers,
    gives the same stored token and the same [Authorization] header as
    right after the call (both present for a non-empty [t], both absent
    otherwise).  The load itself never writes to [localStorage]. *)
Theorem reload_reproduces_session (t : option string) (st : ApiState) :
  let before := setAuth t st in
  let after := on_load (mkApiState ∅ (localStorage before)) in
  getToken after = getToken before
  /\ headers after !! "Authorization" = headers before !! "Authorization"
  /\ (forall st', localStorage (on_load st') = localStorage st').
Proof.
  cbv zeta. split; [|split].
  - unfold on_load, getToken.
    destruct (setAuth_cases t st) as [(tok & Ht & E & _) | [_ E]];
      rewrite E; cbn [localStorage headers].
    + rewrite lookup_insert_eq, Ht. cbn [localStorage].
      now rewrite lookup_insert_eq.
    + rewrite lookup_delete_eq. cbn [localStorage].
      now rewrite lookup_delete_eq.
  - unfold on_load, getToken.
    destruct (setAuth_cases t st) as [(tok & Ht & E & _) | [_ E]];
      rewrite E; cbn [localStorage headers].
    + rewrite lookup_insert_eq, Ht. cbn [headers].
      now rewrite !lookup_insert_eq.
    + rewrite lookup_delete_eq. cbn [headers].
      rewrite lookup_delete_eq. apply lookup_empty.
  - intros st'. unfold on_load.
    destruct (getToken st') as [tok|]; [destruct (truthy tok)|]; reflexivity.
Qed.

(** X17.  The session probe of [App] on mount.  Without a stored token
    (or with an empty one) nothing is asked and nothing changes.  With a
    token, exactly one request is made, GET /auth/me, and the
    [Authorization] header is already attached when it is issued; if it
    succeeds the user is set, the view is the chat and the token stays; if
    it fails the failure is swallowed and the session is cleared: no
    stored token, no header, user and view as before. *)
Theorem app_mount_probe (s : App.Env) :
  (truthy_opt (getToken (App.api s)) = false ->
   forall answers,
     run App.mountEffect answers s = mkOutcome s [] (Returned tt))
  /\ (forall tok,
        getToken (App.api s) = Some tok -> truthy tok = true ->
        (forall answers,
            requests (out_trace (run App.mountEffect answers s))
            = [(GET, "/auth/me", BNone)]
            /\ (exists e rest,
                   out_trace (run App.mountEffect answers s)
                   = (Asked (Http GET "/auth/me" BNone), e) :: rest
                   /\ headers (App.api e) !! "Authorization"
                      = Some ("Bearer " +:+ tok)))
        /\ (forall d rest,
              let o := run App.mountEffect (HttpOk d :: rest) s in
              out_result o = Returned tt
              /\ App.user (out_env o) = Some d
              /\ App.view (out_env o) = "chat"
              /\ getToken (App.api (out_env o)) = Some tok
              /\ headers (App.api (out_env o)) !! "Authorization"
                 = Some ("Bearer " +:+ tok))
        /\ (forall detail rest,
              let o := run App.mountEffect (HttpError detail :: rest) s in
              out_result o = Returned tt
              /\ App.user (out_env o) = App.user s
              /\ App.view (out_env o) = App.view s
              /\ getToken (App.api (out_env o)) = None
              /\ headers (App.api (out_env o)) !! "Authorization" = None)).
Proof.
  unfold App.mountEffect, getToken. split.
  - intros Hf answers. simpl.
    destruct (localStorage (App.api s) !! "token") as [[|c tok]|];
      try discriminate Hf; reflexivity.
  - intros tok Htok Ht. simpl. rewrite Htok, Ht. simpl.
    destruct tok as [|c tok]; [discriminate|]. simpl.
    split; [|split].
    + intros answers.
      destruct answers as [|a rest]; simpl;
        [|destruct a; simpl];
        (split; [reflexivity|]); do 2 eexists;
        (split; [reflexivity|]); simpl; apply lookup_insert_eq.
    + intros d rest. simpl. rewrite !lookup_insert_eq. auto.
    + intros detail rest. simpl. rewrite !lookup_delete_eq. auto.
Qed.

Lemma app_mount_probe_witness :
  let s := App.initial (mkApiState ∅ {[ "token" := "abc" ]}) in
  getToken (App.api (out_env (run App.mountEffect [HttpError None] s))) = None
  /\ run App.mountEffect [HttpError None]
         (App.initial (mkApiState ∅ ∅))
     = mkOutcome (App.initial (mkApiState ∅ ∅)) [] (Returned tt).
Proof.
  intros s. split.
  - apply (proj2 (proj2 (proj2 (app_mount_probe s) "abc"
                                eq_refl eq_refl)) None []).
  - apply (proj1 (app_mount_probe (App.initial (mkApiState ∅ ∅)))).
    reflexivity.
Defined.

(** X18.  [onLoggedIn] stores the token before it probes, and does not
    handle a failing probe: when GET /auth/me fails after a login with a
    non-empty token, the rejection is left unhandled, and the token and
    the header stay set while no user is set. *)
Theorem app_onLoggedIn_failed_probe
        (s : App.Env) (tok : string) (detail : option string)
        (rest : list Answer) :
  truthy tok = true ->
  let o := run (App.onLoggedIn (Some tok)) (HttpError detail :: rest) s in
  out_result o = Raised (EHttp detail)
  /\ App.user (out_env o) = App.user s
  /\ App.view (out_env o) = App.view s
  /\ getToken (App.api (out_env o)) = Some tok
  /\ headers (App.api (out_env o)) !! "Authorization"
     = Some ("Bearer " +:+ tok).
Proof.
  intros Ht. destruct tok as [|c tok]; [discriminate|].
  unfold App.onLoggedIn, getToken. simpl. rewrite !lookup_insert_eq. auto.
Qed.

Lemma app_onLoggedIn_failed_probe_witness :
  getToken (App.api (out_env (run (App.onLoggedIn (Some "abc"))
                                  [HttpError None]
                                  (App.initial (mkApiState ∅ ∅)))))
  = Some "abc".
Proof.
  apply (app_onLoggedIn_failed_probe (App.initial (mkApiState ∅ ∅))
           "abc" None []).
  reflexivity.
Defined.

End SessionFacts.

(** ** Chat.jsx: threads and messages *)

Module ChatThreadFacts.

Import JS Eff Chat ChatThreads.

Section ThreadFacts.

Variable JSON_stringify : Thread -> string.
Variable JSON_parse : string -> option Thread.


(** X20.  When the chat relay call of a [send] succeeds, the run returns
    and the list is the previous list, then the optimistic entries, then
    one assistant entry holding the reply. *)
Theorem send_appends_reply (text : string) (file : option File)
        (answers : list Answer) (s : Env) (reply : option string) :
  let o := run (send JSON_stringify JSON_parse text file) answers s in
  chat_answer (out_trace o) = Some (HttpOk (DReply reply)) ->
  out_result o = Returned tt
  /\ messages (out_env o)
     = (messages s ++ optimistic text file ++ [Say assistant reply])%list.
Proof.
  unfold send, reuse_last, ensure_thread, optimistic, when. simpl.
  intros H.
  repeat (progress (split_cases; simpl in * )); try discriminate;
    (split; [reflexivity|]); close_case.
Qed.


(** X22.  With no thread selected or recorded, a failing thread creation
    ends [send] at once: the rejection is not handled, no chat relay call
    is made, nothing is appended (the message handed in is not shown) and
    the state is exactly as before. *)
Theorem send_creation_failure (text : string) (file : option File)
        (s : Env) (detail : option string) (rest : list Answer) :
  thread s = None ->
  saved_thread JSON_parse s = None ->
  run (send JSON_stringify JSON_parse text file) (HttpError detail :: rest) s
  = mkOutcome s
      [(Asked (Http POST "/threads" (BJson [("title", "New chat")])), s);
       (Answered (HttpError detail), s)]
      (Raised (EHttp detail)).
Proof.
  unfold send, reuse_last, ensure_thread, saved_thread, when.
  intros Hth Hsaved. simpl. rewrite Hth.
  destruct (localStorage s !! "last-thread") as [saved|];
    [destruct (truthy saved)|]; try rewrite Hsaved; reflexivity.
Qed.

(** X23.  [renameChat] on a selected thread.  A new, non-empty title
    confirmed by the backend replaces the title and nothing else of the
    thread, and the renamed thread is recorded as the last thread; the
    messages stay.  A cancelled prompt, an empty title or the old title
    asks nothing of the backend and changes nothing.  A failing call
    changes nothing either and is reported by the alert "Rename failed". *)
Theorem renameChat_outcomes (s : Env) (th : Thread) :
  thread s = Some th ->
  (forall newTitle d rest,
      newTitle <> "" -> newTitle <> title th ->
      let o := run (renameChat JSON_stringify)
                   (Typed (Some newTitle) :: HttpOk d :: rest) s in
      let renamed := mkThread (id th) newTitle (project_id th)
                              (active_model th) in
      thread (out_env o) = Some renamed
      /\ localStorage (out_env o)
         = <["last-thread" := JSON_stringify renamed]> (localStorage s)
      /\ messages (out_env o) = messages s
      /\ requests (out_trace o)
         = [(PUT, "/threads/" +:+ id th, BJson [("title", newTitle)])])
  /\ (forall answer rest,
        answer = None \/ answer = Some "" \/ answer = Some (title th) ->
        let o := run (renameChat JSON_stringify) (Typed answer :: rest) s in
        out_env o = s /\ requests (out_trace o) = []
        /\ out_result o = Returned tt)
  /\ (forall newTitle detail rest,
        newTitle <> "" -> newTitle <> title th ->
        let o := run (renameChat JSON_stringify)
                     (Typed (Some newTitle) :: HttpError detail :: rest) s in
        out_env o = s
        /\ out_result o = Returned tt
        /\ last (map fst (out_trace o)) = Some (Emitted (Alert "Rename failed"))).
Proof.
  intros Hth. unfold renameChat.
  cbn -[String.eqb]. rewrite Hth. cbn -[String.eqb].
  split; [|split].
  - intros newTitle d rest Hne Hold.
    replace (truthy newTitle) with true
      by (destruct newTitle; [congruence | reflexivity]).
    replace (String.eqb newTitle (title th)) with false
      by (symmetry; now apply String.eqb_neq).
    cbn -[String.eqb]. auto.
  - intros answer rest [-> | [-> | ->]].
    + cbn. auto.
    + cbn. auto.
    + rewrite String.eqb_refl, orb_true_r. cbn. auto.
  - intros newTitle detail rest Hne Hold.
    replace (truthy newTitle) with true
      by (destruct newTitle; [congruence | reflexivity]).
    replace (String.eqb newTitle (title th)) with false
      by (symmetry; now apply String.eqb_neq).
    cbn -[String.eqb]. auto.
Qed.

(** X24.  [deleteChat] on a selected thread changes nothing unless the
    deletion goes through: a declined confirmation asks nothing of the
    backend, and a failing call is swallowed and reported by the alert
    "Delete failed"; in both cases the selection, the messages and
    [localStorage] are as before. *)
Theorem deleteChat_keeps_state (s : Env) (th : Thread) :
  thread s = Some th ->
  (forall rest,
      let o := run deleteChat (Chosen false :: rest) s in
      out_env o = s /\ requests (out_trace o) = []
      /\ out_result o = Returned tt)
  /\ (forall detail rest,
        let o := run deleteChat (Chosen true :: HttpError detail :: rest) s in
        out_env o = s
        /\ out_result o = Returned tt
        /\ requests (out_trace o) = [(DELETE, "/threads/" +:+ id th, BNone)]
        /\ last (map fst (out_trace o)) = Some (Emitted (Alert "Delete failed"))).
Proof.
  intros Hth. unfold deleteChat. simpl. rewrite Hth. simpl. auto 10.
Qed.

(** X25.  [newPersonal]: one POST to /threads, whose payload carries
    [project_id] exactly when a project id is given.  On success the new
    thread is selected and recorded as the last thread, the message list
    is emptied and the sidebar is told to refresh; on failure the call
    rejects and the state is as before. *)
Theorem newPersonal_outcomes (projectId : option string) (s : Env) :
  (forall answers,
      exists more,
        requests (out_trace (run (newPersonal JSON_stringify projectId)
                                 answers s))
        = [(POST, "/threads", BJson (("title", "New chat") :: more))]
        /\ (more = [] \/ exists pid, projectId = Some pid
                                    /\ more = [("project_id", pid)])
        /\ (more = [] <-> JSText.truthy_id projectId = false))
  /\ (forall th rest,
        let o := run (newPersonal JSON_stringify projectId)
                     (HttpOk (DThread th) :: rest) s in
        out_env o
        = mkEnv [] (Some th) (config s)
                (<["last-thread" := JSON_stringify th]> (localStorage s))
        /\ out_result o = Returned tt
        /\ last (map fst (out_trace o))
           = Some (Emitted (DispatchEvent "refresh-threads")))
  /\ (forall detail rest,
        let o := run (newPersonal JSON_stringify projectId)
                     (HttpError detail :: rest) s in
        out_env o = s /\ out_result o = Raised (EHttp detail)).
Proof.
  unfold newPersonal. split; [|split].
  - intros answers.
    exists (match projectId with
            | Some pid => if JSText.truthy_id projectId
                          then [("project_id", pid)] else []
            | None => []
            end).
    split; [|split].
    + unfold newPersonal_payload.
      destruct answers as [|a rest]; simpl; [reflexivity|].
      destruct a as [d|detail|b|t|la lo|]; simpl; try reflexivity.
      destruct d; reflexivity.
    + destruct projectId as [pid|]; [|auto].
      destruct (JSText.truthy_id (Some pid)); eauto.
    + destruct projectId as [pid|]; [|tauto].
      destruct (JSText.truthy_id (Some pid)); split; congruence.
  - intros th rest. simpl. auto.
  - intros detail rest. simpl. auto.
Qed.

(** X26.  [selectThread] selects [t] and records it as the last thread
    in every case.  When the history arrives, the message list is the
    history as displayed, entry for entry, whatever was shown before
    (replaced, not appended).  When the history call fails, or [t] is
    null, the previous messages stay on display.  Selecting again with the
    same outcome changes nothing more. *)
Theorem selectThread_outcomes (t : option Thread)
        (fetched : option (list ServerMessage)) (s : Env) :
  let s' := selectThread JSON_stringify t fetched s in
  thread s' = t
  /\ localStorage s'
     = <["last-thread" := stringify_selection JSON_stringify t]>
         (localStorage s)
  /\ config s' = config s
  /\ (forall th history,
        t = Some th -> fetched = Some history ->
        messages s' = map display history
        /\ length (messages s') = length history)
  /\ (t = None \/ fetched = None -> messages s' = messages s)
  /\ selectThread JSON_stringify t fetched s' = s'.
Proof.
  unfold selectThread, loadMessages_done, loadMessages_request.
  destruct t as [th|], fetched as [history|]; simpl;
    (split; [reflexivity|]); (split; [reflexivity|]);
    (split; [reflexivity|]).
  - split; [intros th' h' _ [= <-]; split; [reflexivity | apply length_map]|].
    split; [intros [H|H]; discriminate|].
    unfold setMessages. simpl. f_equal. apply insert_insert_eq.
  - split; [intros th' h' _ H; discriminate|].
    split; [reflexivity|].
    unfold localStorage_setItem, setThread. simpl.
    f_equal. apply insert_insert_eq.
  - split; [intros th' h' H; discriminate|].
    split; [reflexivity|].
    unfold localStorage_setItem, setThread. simpl.
    f_equal. apply insert_insert_eq.
  - split; [intros th' h' H; discriminate|].
    split; [reflexivity|].
    unfold localStorage_setItem, setThread. simpl.
    f_equal. apply insert_insert_eq.
Qed.

(** X27.  Reload continuity.  Provided [JSON.parse] reads back what
    [JSON.stringify] wrote for the thread, a page reload after selecting a
    thread restores that thread as the selection; the message list,
    however, starts empty (the restore does not fetch the history).  After
    a successful [deleteChat], a reload restores nothing. *)
Theorem restoreThread_after_reload (th : Thread)
        (fetched : option (list ServerMessage)) (s : Env) :
  JSON_parse (JSON_stringify th) = Some th ->
  truthy (JSON_stringify th) = true ->
  (let s' := restoreThread JSON_parse
               (reload (selectThread JSON_stringify (Some th) fetched s)) in
   thread s' = Some th /\ messages s' = [])
  /\ (forall d rest,
        thread s = Some th ->
        let deleted := out_env (run deleteChat
                                    (Chosen true :: HttpOk d :: rest) s) in
        thread (restoreThread JSON_parse (reload deleted)) = None).
Proof.
  intros Hrt Htr. split.
  - unfold restoreThread, reload, selectThread, loadMessages_done.
    destruct fetched as [history|]; simpl;
      rewrite lookup_insert_eq, Htr, Hrt; auto.
  - intros d rest Hth. unfold restoreThread, reload, deleteChat. simpl.
    rewrite Hth. simpl. rewrite lookup_delete_eq. reflexivity.
Qed.

(** X28.  Deleting the selected chat from the sidebar ends in
    [selectThread(null)]: the selection is cleared, but the messages of
    the deleted chat stay on display and the last-thread record is
    overwritten with the text "null" rather than removed.  As [JSON.parse]
    reads "null" as no thread, the next [send] starts by creating a new
    thread, and a reload restores nothing. *)
Theorem selectThread_null_then_send
        (s : Env) (text : string) (file : option File)
        (answers : list Answer) :
  JSON_parse "null" = None ->
  let s' := selectThread JSON_stringify None None s in
  thread s' = None
  /\ messages s' = messages s
  /\ localStorage s' !! "last-thread" = Some "null"
  /\ (exists more,
        requests (out_trace
                    (run (send JSON_stringify JSON_parse text file)
                         answers s'))
        = (POST, "/threads", BJson [("title", "New chat")]) :: more)
  /\ thread (restoreThread JSON_parse (reload s')) = None.
Proof.
  intros Hnull. unfold selectThread. simpl.
  split; [reflexivity|]. split; [reflexivity|].
  split; [apply lookup_insert_eq|]. split.
  - unfold send, reuse_last, ensure_thread. simpl.
    rewrite lookup_insert_eq. simpl. rewrite Hnull. simpl.
    destruct answers as [|a rest]; simpl; eauto.
  - unfold restoreThread, reload. simpl.
    rewrite lookup_insert_eq. simpl. now rewrite Hnull.
Qed.

End ThreadFacts.

Lemma send_appends_reply_witness :
  messages (out_env (run (send encode decode "hi" None)
                         [HttpOk (DReply (Some "hello again"))] open_chat))
  = [Say assistant (Some "hello"); Say user (Some "hi");
     Say assistant (Some "hello again")].
Proof.
  apply (send_appends_reply encode decode "hi" None
           [HttpOk (DReply (Some "hello again"))] open_chat
           (Some "hello again")).
  reflexivity.
Defined.


Lemma send_creation_failure_witness :
  out_env (run (send encode decode "hi" None) [HttpError None] no_chat)
  = no_chat.
Proof.
  rewrite (send_creation_failure encode decode "hi" None no_chat None []);
    reflexivity.
Defined.

Lemma renameChat_outcomes_witness :
  thread (out_env (run (renameChat encode)
                       [Typed (Some "Trip"); HttpOk DNone] open_chat))
  = Some (mkThread "7" "Trip" None None)
  /\ out_env (run (renameChat encode) [Typed (Some "Plans")] open_chat)
     = open_chat.
Proof.
  split.
  - apply (proj1 (renameChat_outcomes encode open_chat thread7 eq_refl)
                 "Trip" DNone []); discriminate.
  - apply (proj1 (proj2 (renameChat_outcomes encode open_chat thread7
                                             eq_refl))
                 (Some "Plans") []).
    right; right; reflexivity.
Defined.

Lemma deleteChat_keeps_state_witness :
  out_env (run deleteChat [Chosen false] open_chat) = open_chat
  /\ out_env (run deleteChat [Chosen true; HttpError None] open_chat)
     = open_chat.
Proof.
  split.
  - apply (proj1 (deleteChat_keeps_state open_chat thread7 eq_refl) []).
  - apply (proj2 (deleteChat_keeps_state open_chat thread7 eq_refl) None []).
Defined.

Lemma newPersonal_outcomes_witness :
  out_env (run (newPersonal encode (Some "3"))
               [HttpOk (DThread thread9)] open_chat)
  = mkEnv [] (Some thread9) settings
          (<["last-thread" := "9"]> (localStorage open_chat)).
Proof.
  apply (proj1 (proj2 (newPersonal_outcomes encode (Some "3") open_chat))
               thread9 []).
Defined.

Lemma selectThread_outcomes_witness :
  messages (selectThread encode (Some thread9)
              (Some [mkServerMessage None (Some "user") (Some "hi") "";
                     mkServerMessage (Some "file") (Some "assistant") None
                                     "notes.pdf"])
              open_chat)
  = [Say user (Some "hi"); Attach user "notes.pdf"]
  /\ messages (selectThread encode (Some thread9) None open_chat)
     = [Say assistant (Some "hello")].
Proof.
  split.
  - apply (proj1 (proj2 (proj2 (proj2 (selectThread_outcomes
             encode (Some thread9)
             (Some [mkServerMessage None (Some "user") (Some "hi") "";
                    mkServerMessage (Some "file") (Some "assistant") None
                                    "notes.pdf"])
             open_chat))))
           thread9 _ eq_refl eq_refl).
  - apply (proj1 (proj2 (proj2 (proj2 (proj2 (selectThread_outcomes
             encode (Some thread9) None open_chat)))))).
    right. reflexivity.
Defined.

Lemma restoreThread_after_reload_witness :
  thread (restoreThread decode
            (reload (selectThread encode (Some thread9) None open_chat)))
  = Some thread9
  /\ messages (restoreThread decode
                 (reload (selectThread encode (Some thread9) None open_chat)))
     = [].
Proof.
  apply (proj1 (restoreThread_after_reload encode decode thread9 None
                  open_chat eq_refl eq_refl)).
Defined.

Lemma selectThread_null_then_send_witness :
  let s' := selectThread encode None None open_chat in
  thread s' = None
  /\ messages s' = [Say assistant (Some "hello")]
  /\ localStorage s' !! "last-thread" = Some "null".
Proof.
  intros s'.
  destruct (selectThread_null_then_send encode decode_or_null open_chat
              "hi" None [] eq_refl) as (H1 & H2 & H3 & _).
  split; [exact H1|]. split; [exact H2 | exact H3].
Defined.

End ChatThreadFacts.

(** ** Sidebar.jsx: grouping the threads *)

Module SidebarFacts.

Import JS Eff Sidebar.

Lemma fold_place (threads : list Thread) :
  forall acc,
    fst (fold_left place threads acc)
    = (fst acc ++ List.filter is_personal threads)%list
    /\ forall pid,
         snd (fold_left place threads acc) !! pid
         = match List.filter (in_project pid) threads with
           | [] => snd acc !! pid
           | l => Some (default [] (snd acc !! pid) ++ l)%list
           end.
Proof.
  induction threads as [|t ts IH]; intros acc.
  - simpl. split; [symmetry; apply app_nil_r | reflexivity].
  - cbn [fold_left List.filter].
    destruct (IH (place acc t)) as [IH1 IH2]. rewrite IH1. clear IH IH1.
    destruct (project_id t) as [p|] eqn:Ep;
      [destruct (JSText.truthy_id (Some p)) eqn:Ht|].
    + assert (Hplace : place acc t
                       = (fst acc,
                          <[p := (default [] (snd acc !! p) ++ [t])%list]>
                            (snd acc)))
        by (unfold place; rewrite Ep, Ht; reflexivity).
      assert (Hp : is_personal t = false)
        by (unfold is_personal; rewrite Ep, Ht; reflexivity).
      assert (Hin : forall pid, in_project pid t = String.eqb p pid)
        by (intros pid; unfold in_project; rewrite Ep, Ht; reflexivity).
      rewrite Hp. split; [now rewrite Hplace|].
      intros pid. rewrite IH2, Hplace, Hin. cbn [snd].
      destruct (String.eqb p pid) eqn:E.
      * apply String.eqb_eq in E. subst pid.
        rewrite lookup_insert_eq.
        destruct (List.filter (in_project p) ts); cbn [default];
          [reflexivity|].
        f_equal. unfold Datatypes.id. rewrite <- app_assoc. reflexivity.
      * apply String.eqb_neq in E.
        now rewrite lookup_insert_ne by exact E.
    + assert (Hplace : place acc t = ((fst acc ++ [t])%list, snd acc))
        by (unfold place; rewrite Ep, Ht; reflexivity).
      assert (Hp : is_personal t = true)
        by (unfold is_personal; rewrite Ep, Ht; reflexivity).
      assert (Hin : forall pid, in_project pid t = false)
        by (intros pid; unfold in_project; rewrite Ep, Ht; reflexivity).
      rewrite Hp. split; [rewrite Hplace; cbn [fst]; now rewrite <- app_assoc|].
      intros pid. now rewrite IH2, Hplace, Hin.
    + assert (Hplace : place acc t = ((fst acc ++ [t])%list, snd acc))
        by (unfold place; rewrite Ep; reflexivity).
      assert (Hp : is_personal t = true)
        by (unfold is_personal; rewrite Ep; reflexivity).
      assert (Hin : forall pid, in_project pid t = false)
        by (intros pid; unfold in_project; rewrite Ep; reflexivity).
      rewrite Hp. split; [rewrite Hplace; cbn [fst]; now rewrite <- app_assoc|].
      intros pid. now rewrite IH2, Hplace, Hin.
Qed.

(** X29.  The grouping of [load] loses and invents nothing.  The personal
    list is the threads without a project, in the order received; the list
    of a project is the threads of that project, in the order received,
    and a project with no thread has no entry at all (never an empty
    list).  So every thread received ends up in exactly one of the lists,
    and the lists hold nothing else. *)
Theorem group_partitions (threads : list Thread) :
  fst (group threads) = List.filter is_personal threads
  /\ (forall pid,
        snd (group threads) !! pid
        = match List.filter (in_project pid) threads with
          | [] => None
          | l => Some l
          end)
  /\ (forall t,
        In t threads <->
        In t (fst (group threads))
        \/ exists pid l, snd (group threads) !! pid = Some l /\ In t l)
  /\ (forall t pid l,
        In t (fst (group threads)) ->
        snd (group threads) !! pid = Some l -> ~ In t l).
Proof.
  unfold group. destruct (fold_place threads ([], ∅)) as [H1 H2].
  cbn [fst snd] in H1, H2. cbn [app] in H1.
  assert (H2' : forall pid,
            snd (fold_left place threads ([], ∅)) !! pid
            = match List.filter (in_project pid) threads with
              | [] => None
              | l => Some l
              end).
  { intros pid. rewrite H2, lookup_empty.
    destruct (List.filter (in_project pid) threads); reflexivity. }
  split; [exact H1|]. split; [exact H2'|]. split.
  - intros t. rewrite H1. split.
    + intros Hin. destruct (is_personal t) eqn:Hp.
      * left. apply filter_In. auto.
      * right. unfold is_personal in Hp. apply negb_false_iff in Hp.
        destruct (project_id t) as [p|] eqn:Ep; [|discriminate].
        assert (Hf : In t (List.filter (in_project p) threads)).
        { apply filter_In. split; [exact Hin|].
          unfold in_project. now rewrite Ep, Hp, String.eqb_refl. }
        exists p. rewrite H2'.
        destruct (List.filter (in_project p) threads) as [|x l];
          [contradiction|]. eauto.
    + intros [Hin | (pid & l & Hl & Hin)].
      * apply filter_In in Hin. tauto.
      * rewrite H2' in Hl.
        destruct (List.filter (in_project pid) threads) as [|x l'] eqn:Ef;
          [discriminate|].
        injection Hl as <-. rewrite <- Ef in Hin.
        apply filter_In in Hin. tauto.
  - intros t pid l Hp Hl Hin. rewrite H1 in Hp. rewrite H2' in Hl.
    apply filter_In in Hp as [_ Hp].
    destruct (List.filter (in_project pid) threads) as [|x l'] eqn:Ef;
      [discriminate|].
    injection Hl as <-. rewrite <- Ef in Hin.
    apply filter_In in Hin as [_ Hin].
    unfold is_personal, in_project in *.
    destruct (project_id t); [|discriminate].
    apply andb_true_iff in Hin as [Hin _]. rewrite Hin in Hp. discriminate.
Qed.

Lemma group_partitions_witness :
  let a := mkThread "1" "Alone" None None in
  let b := mkThread "2" "Shared" (Some "5") None in
  let c := mkThread "3" "Zero" (Some "0") None in
  In b [a; b; c]
  /\ fst (group [a; b; c]) = [a; c]
  /\ snd (group [a; b; c]) !! "5" = Some [b].
Proof.
  intros a b c.
  destruct (group_partitions [a; b; c]) as (H1 & H2 & H3 & _).
  split; [|split].
  - apply (proj2 (H3 b)). right. exists "5", [b].
    split; [rewrite H2; reflexivity | simpl; auto].
  - rewrite H1. reflexivity.
  - rewrite H2. reflexivity.
Defined.

End SidebarFacts.

(** ** EmailVerifiedPage.jsx: what the answer leaves on the page *)

Module VerifyOutcomeFacts.

Import JS Eff Loop EmailVerifiedPage EmailVerifiedPageFacts.

(** The three states a mounted page can be in: fresh (no effect has run),
    awaiting (the first run issued the call for a usable token and its
    answer is outstanding), or done (the guard is up and nothing is
    waiting). *)
Local Abbreviation fresh p := (sys p = mkSystem initial [] []).
Local Abbreviation awaiting p :=
  (exists tok, truthy tok = true
               /\ sys p = start (verifyEmail (Some tok))
                                (mkSystem initial [] [])).
Local Abbreviation done p :=
  (verificationAttempted (sys_env (sys p)) = true
   /\ sys_waiting (sys p) = []).

(** What the answer [a] to the verification call leaves. *)
Lemma resolved_call (tok : string) (a : Answer) :
  truthy tok = true ->
  let s := resolve 0 a (start (verifyEmail (Some tok))
                              (mkSystem initial [] [])) in
  let env := sys_env s in
  (verificationAttempted env = true /\ sys_waiting s = [])
  /\ (status env = "success" \/ status env = "already_verified"
      \/ status env = "error")
  /\ (status env = "success"
      <-> exists msg em, a = HttpOk (DVerify "success" msg em))
  /\ (In (Emitted (StartCountdown 1000)) (map fst (sys_trace s))
      <-> status env = "success")
  /\ (forall detail,
         a = HttpError detail ->
         status env = "error"
         /\ message env = Some (or_else detail msg_failed)).
Proof.
  intros Ht. cbv zeta.
  destruct tok as [|c t]; [discriminate|].
  cbn -[String.eqb].
  destruct a as [d|detail|b|text|la lo|]; cbn -[String.eqb];
    try (destruct d as [|st msg em|th|r|ad]; cbn -[String.eqb];
         try (destruct (String.eqb st "success") eqn:E1;
              cbn -[String.eqb];
              [apply String.eqb_eq in E1; subst st
              |destruct (String.eqb st "already_verified") eqn:E2;
               cbn -[String.eqb]]));
    try (destruct detail as [[|? ?]|]; cbn -[String.eqb]);
    (split; [auto|]);
    (split; [auto|]);
    (split; [split; [intros H; try discriminate H; eauto
                    |intros (m0 & e0 & H); try discriminate H;
                     try reflexivity;
                     injection H as -> _ _; discriminate E1]|]);
    (split; [split; [intros H; try reflexivity;
                     repeat (destruct H as [H|H]; try discriminate H);
                     contradiction
                    |intros H; try discriminate H; auto 6]|]);
    intros dt H; try discriminate H; injection H as <-; auto.
Qed.

(** An awaiting page: the guard is up, the status is still "verifying"
    and exactly one continuation is parked. *)
Lemma awaiting_page (tok : string) :
  truthy tok = true ->
  let s := start (verifyEmail (Some tok)) (mkSystem initial [] []) in
  verificationAttempted (sys_env s) = true
  /\ status (sys_env s) = "verifying"
  /\ length (sys_waiting s) = 1.
Proof.
  intros Ht. destruct tok as [|c t]; [discriminate|]. cbn. auto.
Qed.

Lemma start_from_fresh (token : option string) (p q : Page) :
  fresh p ->
  sys q = start (verifyEmail token) (sys p) ->
  awaiting q \/ done q.
Proof.
  intros Hs Hq. rewrite Hs in Hq.
  destruct (truthy_opt token) eqn:Ht.
  - destruct token as [tok|]; [|discriminate]. left. exists tok. auto.
  - right. rewrite start_verifyEmail_missing in Hq by (auto; reflexivity).
    rewrite Hq. auto.
Qed.

Lemma step_reach (p : Page) (e : PageEvent) :
  fresh p \/ awaiting p \/ done p ->
  fresh (step p e) \/ awaiting (step p e) \/ done (step p e).
Proof.
  intros [Hs | [(tok & Ht & Hs) | [Ha Hw]]].
  - destruct e as [token| |i a]; unfold step.
    + destruct (bool_decide (deps p = Some token)); [auto|].
      right. eapply start_from_fresh; [exact Hs | reflexivity].
    + destruct (deps p) as [token|]; [|auto].
      right. eapply start_from_fresh; [exact Hs | reflexivity].
    + left. cbn [sys]. unfold resolve. rewrite Hs. reflexivity.
  - destruct (awaiting_page tok Ht) as (Ha & _ & Hl).
    rewrite <- Hs in Ha, Hl.
    destruct e as [token| |i a]; unfold step.
    + destruct (bool_decide (deps p = Some token)); cbn [sys];
        [|rewrite start_verifyEmail_guarded by assumption];
        right; left; exists tok; auto.
    + destruct (deps p) as [token|]; cbn [sys];
        [rewrite start_verifyEmail_guarded by assumption|];
        right; left; exists tok; auto.
    + cbn [sys]. destruct i as [|i].
      * right. right. rewrite Hs. apply (resolved_call tok a Ht).
      * right. left. exists tok. split; [assumption|].
        unfold resolve.
        destruct (sys_waiting (sys p)) as [|k [|k' w]]; try discriminate Hl.
        exact Hs.
  - right. right. rewrite (step_quiescent p e Ha Hw). auto.
Qed.

(** Every page reached from the mount is fresh, awaiting or done. *)
Lemma steps_reach (es : list PageEvent) :
  forall p, fresh p \/ awaiting p \/ done p ->
    fresh (steps p es) \/ awaiting (steps p es) \/ done (steps p es).
Proof.
  unfold steps.
  induction es as [|e es IH]; intros p H; simpl; [exact H|].
  apply IH, step_reach, H.
Qed.

(** X30.  Whatever renders, effect re-runs and stray events came before:
    while a verification call is outstanding the status is "verifying",
    and once its answer has arrived the page has left that state for
    good: its status is "success", "already_verified" or "error",
    whatever happens afterwards.  It is "success" exactly when the call
    succeeded with status "success", and only then is the redirect
    countdown started.  A failed call shows the server's [detail], or,
    without one, "Verification failed. The link may be invalid or
    expired.". *)
Theorem verify_email_resolution (pre : list PageEvent) (i : nat)
        (a : Answer) (es : list PageEvent) :
  i < length (sys_waiting (sys (steps mount pre))) ->
  let p := steps mount (pre ++ Resolve i a :: es) in
  let env := sys_env (sys p) in
  status (sys_env (sys (steps mount pre))) = "verifying"
  /\ (status env = "success" \/ status env = "already_verified"
      \/ status env = "error")
  /\ (status env = "success"
      <-> exists msg em, a = HttpOk (DVerify "success" msg em))
  /\ (In (Emitted (StartCountdown 1000)) (map fst (sys_trace (sys p)))
      <-> status env = "success")
  /\ (forall detail,
         a = HttpError detail ->
         status env = "error"
         /\ message env = Some (or_else detail msg_failed)).
Proof.
  intros Hi. cbv zeta.
  assert (E : steps mount (pre ++ Resolve i a :: es)
              = steps (step (steps mount pre) (Resolve i a)) es)
    by (unfold steps; rewrite fold_left_app; reflexivity).
  rewrite E. clear E.
  destruct (steps_reach pre mount (or_introl eq_refl))
    as [Hs | [(tok & Ht & Hs) | [_ Hw]]].
  - rewrite Hs in Hi. simpl in Hi. lia.
  - destruct (awaiting_page tok Ht) as (_ & Hv & Hl).
    rewrite <- Hs in Hv, Hl. rewrite Hl in Hi.
    assert (i = 0) as -> by lia.
    split; [exact Hv|].
    destruct (resolved_call tok a Ht) as ([Hg Hq] & H).
    rewrite <- Hs in Hg, Hq, H.
    rewrite (steps_quiescent es (step (steps mount pre) (Resolve 0 a)))
      by assumption.
    unfold step. cbn [sys]. exact H.
  - rewrite Hw in Hi. simpl in Hi. lia.
Qed.

Lemma verify_email_resolution_witness :
  let p := steps mount [Render (Some "t0k"); RerunEffect;
                        Render (Some "other"); Resolve 3 PositionError;
                        Resolve 0 (HttpError (Some "Token expired"));
                        RerunEffect; Render None] in
  status (sys_env (sys p)) = "error"
  /\ message (sys_env (sys p)) = Some "Token expired".
Proof.
  intros p.
  assert (Hi : 0 < length (sys_waiting (sys (steps mount
                 [Render (Some "t0k"); RerunEffect;
                  Render (Some "other"); Resolve 3 PositionError]))))
    by (vm_compute; lia).
  apply (proj2 (proj2 (proj2 (proj2 (verify_email_resolution
           [Render (Some "t0k"); RerunEffect;
            Render (Some "other"); Resolve 3 PositionError]
           0 (HttpError (Some "Token expired"))
           [RerunEffect; Render None] Hi))))
           (Some "Token expired") eq_refl).
Defined.

End VerifyOutcomeFacts.
